(** * Clone Hero song browser: the data pipeline of [app.py]

    A shallow embedding of the three pieces of logic in [app.py]:
    - [format_songlength], the millisecond formatter;
    - [load_song_data], the loader that builds the table of songs and keeps
      one playlist;
    - the two text filters applied to the loaded table.

    Python values are an inductive type, Python floats are the binary64
    numbers of [PrimFloat], Python exceptions are the left summand of a sum,
    and the Streamlit calls [st.error], [st.warning] and [st.info] are a
    list of messages returned next to the result.

    A string stands for a Python [str] through its UTF-8 encoding, so a
    text of ASCII characters is the string of its characters.  Equality of
    texts and the split at a backslash read the same on both sides.  What
    depends on the Unicode tables, the letter case of a character outside
    ASCII and the match of a pattern against it, is not computed here: it
    is left open, next to the other pieces of the Python runtime that the
    script relies on (see [Runtime]).

    The table operations are those of pandas 2 as the script uses them.
    The preparation of the displayed table (the Length column, the choice
    and the labels of the columns) is left out. *)

From Stdlib Require Import ZArith List String Ascii Bool Lia Floats Uint63.
Import ListNotations.
Local Open Scope string_scope.
Local Open Scope Z_scope.

Set Warnings "-register-all,-abstract-large-number".

(** ** Python values *)

(** What [json.load] can produce, and what a table cell can hold. *)
Inductive pyval : Type :=
| PNone
| PBool (b : bool)
| PInt (z : Z)
| PFloat (f : float)
| PStr (s : string)
| PList (l : list pyval)
| PDict (d : list (string * pyval)).

(** Exceptions that the modelled code can meet. *)
Inductive pyexn : Type :=
| ValueError
| TypeError
| OverflowError
| ReError.

Definition py (A : Type) : Type := (pyexn + A)%type.

Definition raise {A : Type} (e : pyexn) : py A := inl e.
Definition ret {A : Type} (a : A) : py A := inr a.
Definition bind {A B : Type} (m : py A) (k : A -> py B) : py B :=
  match m with
  | inl e => inl e
  | inr a => k a
  end.

Notation "x <- m ;; k" := (bind m (fun x => k))
  (at level 61, m at next level, right associativity).

(** ** Numbers *)

Module Num.

(** The view [isinstance(v, (int, float))] gives of a value: [bool] is a
    subclass of [int], with values 0 and 1. *)
Inductive number : Type :=
| NInt (z : Z)
| NFloat (f : float).

Definition as_number (v : pyval) : option number :=
  match v with
  | PInt z => Some (NInt z)
  | PBool b => Some (NInt (Z.b2z b))
  | PFloat f => Some (NFloat f)
  | PNone | PStr _ | PList _ | PDict _ => None
  end.

(** [n < 0] *)
Definition lt0 (n : number) : bool :=
  match n with
  | NInt z => z <? 0
  | NFloat f => PrimFloat.ltb f 0%float
  end.

(** [float(z)] on an int: the nearest binary64 number, ties to even; a
    value too large for a binary64 number raises [OverflowError]. *)
Definition float_of_int (z : Z) : float :=
  SF2Prim (binary_normalize prec emax z 0 false).

Definition py_float (n : number) : py float :=
  match n with
  | NFloat f => ret f
  | NInt z =>
      let f := float_of_int z in
      if PrimFloat.is_infinity f then raise OverflowError else ret f
  end.

(** [int(f)] on a float: truncation towards zero; [ValueError] on a NaN,
    [OverflowError] on an infinity. *)
Definition py_int (f : float) : py Z :=
  match Prim2SF f with
  | S754_nan => raise ValueError
  | S754_infinity _ => raise OverflowError
  | S754_zero _ => ret 0
  | S754_finite s m e =>
      let a := match e with
               | Z0 => Zpos m
               | Zpos p => Zpos m * 2 ^ Zpos p
               | Zneg p => Zpos m / 2 ^ Zpos p
               end in
      ret (if s then - a else a)
  end.

End Num.

(** ** Decimal text of integers *)

Module Dec.

Definition digit_char (d : Z) : ascii :=
  ascii_of_nat (48 + Z.to_nat d).

Definition is_digit (c : ascii) : bool :=
  let n := nat_of_ascii c in (48 <=? n)%nat && (n <=? 57)%nat.

Fixpoint digits_aux (fuel : nat) (n : Z) (acc : string) : string :=
  match fuel with
  | O => acc
  | S fuel' =>
      let acc' := String (digit_char (n mod 10)) acc in
      if n <? 10 then acc' else digits_aux fuel' (n / 10) acc'
  end.

(** [str(n)] for [0 <= n]: a number has no more decimal than binary
    digits, which bounds the recursion. *)
Definition digits (n : Z) : string :=
  digits_aux (S (Z.to_nat (Z.log2 n))) n "".

(** [str(n)] *)
Definition str_int (n : Z) : string :=
  if n <? 0 then String "-" (digits (- n)) else digits n.

(** Reading decimal digits back, for checking [digits]. *)
Definition digit_value (c : ascii) : Z := Z.of_nat (nat_of_ascii c) - 48.

Fixpoint read (s : string) (acc : Z) : Z :=
  match s with
  | EmptyString => acc
  | String c s' => read s' (10 * acc + digit_value c)
  end.

(** [format(n, "02")]: sign first, then zeros up to a width of two. *)
Definition fmt02 (n : Z) : string :=
  if n <? 0 then String "-" (digits (- n))
  else
    let d := digits n in
    if (String.length d <? 2)%nat then String "0" d else d.

End Dec.

(** ** [format_songlength] *)

(** The two [except] clauses of [format_songlength]. *)
Definition songlength_handler (e : pyexn) : string :=
  match e with
  | ValueError | TypeError => "Invalid"
  | OverflowError | ReError => "Error"
  end.

(** [int(float(milliseconds) / 1000)] *)
Definition total_seconds_of (n : Num.number) : py Z :=
  f <- Num.py_float n ;;
  Num.py_int (PrimFloat.div f 1000%float).

Definition mmss (total_seconds : Z) : string :=
  let minutes := total_seconds / 60 in
  let seconds := total_seconds mod 60 in
  Dec.fmt02 minutes ++ ":" ++ Dec.fmt02 seconds.

Definition format_songlength (milliseconds : pyval) : string :=
  match Num.as_number milliseconds with
  | None => "N/A"
  | Some n =>
      if Num.lt0 n then "N/A"
      else
        match total_seconds_of n with
        | inr total_seconds => mmss total_seconds
        | inl e => songlength_handler e
        end
  end.

(** ** Text *)

Module Str.

(** The character is an ASCII one: its code is below 128. *)
Definition is_ascii (c : ascii) : bool := (nat_of_ascii c <? 128)%nat.

(** The text holds ASCII characters only. *)
Fixpoint ascii_only (s : string) : bool :=
  match s with
  | EmptyString => true
  | String c s' => is_ascii c && ascii_only s'
  end.

(** The lower case of an ASCII character: the letters A to Z move to a to
    z, every other ASCII character is its own lower case. *)
Definition lower_char (c : ascii) : ascii :=
  let n := nat_of_ascii c in
  if ((65 <=? n) && (n <=? 90))%nat then ascii_of_nat (n + 32) else c.

(** [s.lower()] for a text of ASCII characters. *)
Fixpoint lower (s : string) : string :=
  match s with
  | EmptyString => EmptyString
  | String c s' => String (lower_char c) (lower s')
  end.

Definition backslash : ascii := ascii_of_nat 92.
Definition newline : ascii := ascii_of_nat 10.

(** [s.split(sep)[0]]: the text before the first [sep], all of [s] when
    there is none. *)
Fixpoint before_first (sep : ascii) (s : string) : string :=
  match s with
  | EmptyString => EmptyString
  | String c s' =>
      if Ascii.eqb c sep then EmptyString else String c (before_first sep s')
  end.

End Str.

(** ** Regular expressions

    [Series.str.contains(pat, case=False, na=False)] keeps pandas' default
    [regex=True]: the pattern is compiled by [re.compile(pat, re.IGNORECASE)]
    and a cell is kept when [search] finds a match in it.  The fragment of
    the pattern language modelled here has literals, [.], [^], [$], groups,
    [|], the repeats [*], [+], [?] with their lazy forms, and a backslash
    before a character that is not an ASCII letter or digit.  Whether a
    match exists is all that [contains] reads, so greedy and lazy repeats
    are the same expression.

    The matcher of this module is the one of [re] for a pattern and a text
    of ASCII characters, where a character is one byte and two letters are
    the same under [re.IGNORECASE] when their ASCII lower cases are.  It is
    applied to such patterns and texts only (see [re_compile]). *)

Module Re.

Inductive regex : Type :=
| Eps
| Chr (c : ascii)
| Any
| Bol
| Eol
| Seq (a b : regex)
| Alt (a b : regex)
| Star (a : regex).

(** *** Matching *)

(** [matches r bol s k]: [r] matches a prefix of [s] and [k] accepts what
    is left; [bol] tells whether [s] starts at the start of the searched
    text.  A repeat gives up a round that consumed nothing. *)
Fixpoint matches (r : regex) (bol : bool) (s : string)
    (k : bool -> string -> bool) {struct r} : bool :=
  match r with
  | Eps => k bol s
  | Chr c =>
      match s with
      | String x s' =>
          Ascii.eqb (Str.lower_char c) (Str.lower_char x) && k false s'
      | EmptyString => false
      end
  | Any =>
      match s with
      | String x s' => negb (Ascii.eqb x Str.newline) && k false s'
      | EmptyString => false
      end
  | Bol => bol && k bol s
  | Eol =>
      match s with
      | EmptyString => k bol s
      | String x EmptyString => Ascii.eqb x Str.newline && k bol s
      | String _ (String _ _) => false
      end
  | Seq a b => matches a bol s (fun bol' s' => matches b bol' s' k)
  | Alt a b => matches a bol s k || matches b bol s k
  | Star a =>
      (fix loop (n : nat) (bol : bool) (s : string) {struct n} : bool :=
         k bol s ||
         match n with
         | O => false
         | S n' =>
             matches a bol s
               (fun bol' s' =>
                  (String.length s' <? String.length s)%nat && loop n' bol' s')
         end) (String.length s) bol s
  end.

Fixpoint search_from (r : regex) (bol : bool) (s : string) : bool :=
  matches r bol s (fun _ _ => true) ||
  match s with
  | EmptyString => false
  | String _ s' => search_from r false s'
  end.

(** [re.search] found a match of [r] in [s]. *)
Definition search (r : regex) (s : string) : bool := search_from r true s.

(** *** Parsing *)

Inductive tok : Type :=
| TLit | TDot | TCaret | TDollar | TStar | TPlus | TQuest | TBar
| TOpen | TClose | TBackslash | TBracket | TBrace.

Definition classify (c : ascii) : tok :=
  if Ascii.eqb c "." then TDot
  else if Ascii.eqb c "^" then TCaret
  else if Ascii.eqb c "$" then TDollar
  else if Ascii.eqb c "*" then TStar
  else if Ascii.eqb c "+" then TPlus
  else if Ascii.eqb c "?" then TQuest
  else if Ascii.eqb c "|" then TBar
  else if Ascii.eqb c "(" then TOpen
  else if Ascii.eqb c ")" then TClose
  else if Ascii.eqb c Str.backslash then TBackslash
  else if Ascii.eqb c "[" then TBracket
  else if Ascii.eqb c "{" then TBrace
  else TLit.

Definition is_alnum (c : ascii) : bool :=
  let n := nat_of_ascii c in
  ((48 <=? n) && (n <=? 57) || (65 <=? n) && (n <=? 90)
   || (97 <=? n) && (n <=? 122))%nat.

(** What the last item of a branch is, for the checks a repeat makes. *)
Inductive kind : Type :=
| KPlain
| KAt
| KGreedy
| KLazy.

(** A group being read: its finished branches and the items of the open
    branch, latest first. *)
Record frame : Type := Frame {
  done : list regex;
  cur : list (kind * regex)
}.

Definition empty_frame : frame := Frame [] [].

Definition push (k : kind) (r : regex) (f : frame) : frame :=
  Frame (done f) ((k, r) :: cur f).

Definition mk_seq (items : list regex) : regex :=
  fold_right Seq Eps items.

Fixpoint mk_alt (first : regex) (others : list regex) : regex :=
  match others with
  | [] => first
  | r :: rs => Alt first (mk_alt r rs)
  end.

Definition branch (f : frame) : regex := mk_seq (rev (map snd (cur f))).

Definition close (f : frame) : regex :=
  match rev (branch f :: done f) with
  | [] => Eps
  | r :: rs => mk_alt r rs
  end.

Inductive outcome : Type :=
| Parsed (r : regex)
| Invalid
| Unsupported.

Inductive mode : Type :=
| Normal
| Escaped
| Opened.

Inductive repeat : Type := RStar | RPlus | RQuest.

Definition repeated (q : repeat) (r : regex) : regex :=
  match q with
  | RStar => Star r
  | RPlus => Seq r (Star r)
  | RQuest => Alt r Eps
  end.

(** A repeat character met after the items [cur f]: "nothing to repeat"
    at the start of a branch or after [^] and [$], "multiple repeat" after
    a repeat, except for the [?] that makes a repeat lazy. *)
Definition on_repeat (q : repeat) (f : frame) : outcome + frame :=
  match cur f with
  | [] => inl Invalid
  | (KAt, _) :: _ => inl Invalid
  | (KPlain, r) :: rest => inr (Frame (done f) ((KGreedy, repeated q r) :: rest))
  | (KGreedy, r) :: rest =>
      match q with
      | RQuest => inr (Frame (done f) ((KLazy, r) :: rest))
      | RPlus => inl Unsupported
      | RStar => inl Invalid
      end
  | (KLazy, _) :: _ => inl Invalid
  end.

Fixpoint parse_from (p : string) (m : mode) (f : frame) (stack : list frame)
    {struct p} : outcome :=
  match p with
  | EmptyString =>
      match m, stack with
      | Escaped, _ => Invalid
      | _, _ :: _ => Invalid
      | _, [] => Parsed (close f)
      end
  | String c p' =>
      match m with
      | Escaped =>
          if is_alnum c then Unsupported
          else parse_from p' Normal (push KPlain (Chr c) f) stack
      | Normal | Opened =>
          match classify c with
          | TLit => parse_from p' Normal (push KPlain (Chr c) f) stack
          | TDot => parse_from p' Normal (push KPlain Any f) stack
          | TCaret => parse_from p' Normal (push KAt Bol f) stack
          | TDollar => parse_from p' Normal (push KAt Eol f) stack
          | TBar => parse_from p' Normal (Frame (branch f :: done f) []) stack
          | TOpen => parse_from p' Opened empty_frame (f :: stack)
          | TClose =>
              match stack with
              | [] => Invalid
              | parent :: stack' =>
                  parse_from p' Normal (push KPlain (close f) parent) stack'
              end
          | TBackslash => parse_from p' Escaped f stack
          | TBracket | TBrace => Unsupported
          | TStar | TPlus | TQuest =>
              match m, classify c with
              | Opened, TQuest => Unsupported
              | _, t =>
                  let q := match t with
                           | TStar => RStar
                           | TPlus => RPlus
                           | _ => RQuest
                           end in
                  match on_repeat q f with
                  | inl o => o
                  | inr f' => parse_from p' Normal f' stack
                  end
              end
          end
      end
  end.

(** [re.compile(pat)], as far as the fragment goes. *)
Definition parse (pat : string) : outcome :=
  parse_from pat Normal empty_frame [].

End Re.

(** ** Tables *)

(** A [pandas.DataFrame] with the default index: the column labels and the
    rows, each row holding one cell per column. *)
Record DataFrame : Type := mkDataFrame {
  columns : list string;
  rows : list (list pyval)
}.

Module Frame.

Definition mem (x : string) (l : list string) : bool :=
  existsb (String.eqb x) l.

Fixpoint index_of (x : string) (l : list string) : option nat :=
  match l with
  | [] => None
  | y :: l' =>
      if String.eqb x y then Some O
      else option_map S (index_of x l')
  end.

(** One cell of the column at position [j]; a row that is too short
    reads as [None]. *)
Definition cell (j : nat) (row : list pyval) : pyval := nth j row PNone.

Fixpoint set_cell (j : nat) (v : pyval) (row : list pyval) : list pyval :=
  match j, row with
  | _, [] => []
  | O, _ :: row' => v :: row'
  | S j', x :: row' => x :: set_cell j' v row'
  end.

(** [df[label]] *)
Definition column (df : DataFrame) (label : string) : list pyval :=
  match index_of label (columns df) with
  | Some j => map (cell j) (rows df)
  | None => []
  end.

(** [df[label] = series]: a new column goes last, an old one keeps its
    place. *)
Definition assign (label : string) (series : list pyval) (df : DataFrame)
    : DataFrame :=
  match index_of label (columns df) with
  | Some j =>
      mkDataFrame (columns df)
        (map (fun rv => set_cell j (snd rv) (fst rv)) (combine (rows df) series))
  | None =>
      mkDataFrame (columns df ++ [label])%list
        (map (fun rv => (fst rv ++ [snd rv])%list) (combine (rows df) series))
  end.

(** [df[label] = None] *)
Definition assign_none (label : string) (df : DataFrame) : DataFrame :=
  assign label (map (fun _ => PNone) (rows df)) df.

(** [df.rename(columns={old: new}, inplace=True)] *)
Definition rename (old new : string) (df : DataFrame) : DataFrame :=
  mkDataFrame
    (map (fun c => if String.eqb c old then new else c) (columns df))
    (rows df).

(** [l[mask]]: the entries of [l] where [mask] holds. *)
Fixpoint select {A : Type} (mask : list bool) (l : list A) : list A :=
  match mask, l with
  | b :: mask', x :: l' =>
      if b then x :: select mask' l' else select mask' l'
  | _, _ => []
  end.

(** [df[mask]] *)
Definition take (mask : list bool) (df : DataFrame) : DataFrame :=
  mkDataFrame (columns df) (select mask (rows df)).

(** [df.empty] *)
Definition empty (df : DataFrame) : bool :=
  match columns df, rows df with
  | [], _ | _, [] => true
  | _, _ => false
  end.

(** *** [pd.DataFrame(data)] on a list of dicts

    The table has the keys of the records as labels, in the order in which
    they first appear, and NaN where a record lacks a key.  Each column is
    then handed to [lib.maybe_convert_objects], which reads its values from
    first to last, notes what it sees and stops at the first value that
    makes the column a column of objects.  The cells are those of pandas 2
    with NumPy-backed columns: [None] stays [None] in a column of objects,
    [astype(str)] writes it "None" and writes a NaN "nan", and
    [replace('nan', None)] puts [None]. *)

Definition nan_cell : pyval := PFloat PrimFloat.nan.

Fixpoint lookup (k : string) (d : list (string * pyval)) : option pyval :=
  match d with
  | [] => None
  | (k', v) :: d' => if String.eqb k k' then Some v else lookup k d'
  end.

(** The keys of all records, each at its first appearance. *)
Definition add_keys (seen : list string) (d : list (string * pyval))
    : list string :=
  fold_left (fun acc k => if mem k acc then acc else (acc ++ [k])%list)
    (map fst d) seen.

Definition union_keys (data : list (list (string * pyval))) : list string :=
  fold_left add_keys data [].

Definition is_none (v : pyval) : bool :=
  match v with PNone => true | _ => false end.

Definition is_nan (v : pyval) : bool :=
  match v with PFloat f => PrimFloat.is_nan f | _ => false end.

(** [series.notna()] on one cell *)
Definition notna (v : pyval) : bool := negb (is_none v || is_nan v).

Definition int64_min : Z := - 2 ^ 63.
Definition int64_max : Z := 2 ^ 63 - 1.
Definition uint64_max : Z := 2 ^ 64 - 1.

(** The flags of the [Seen] object of [lib.maybe_convert_objects] that a
    value read from JSON can set. *)
Record Seen : Type := mkSeen {
  null_ : bool;
  nan_ : bool;
  bool_ : bool;
  float_ : bool;
  int_ : bool;
  sint_ : bool;
  uint_ : bool;
  object_ : bool
}.

Definition nothing_seen : Seen :=
  mkSeen false false false false false false false false.

Definition see_null (s : Seen) : Seen :=
  mkSeen true (nan_ s) (bool_ s) (float_ s) (int_ s) (sint_ s) (uint_ s)
    (object_ s).

Definition see_nan (s : Seen) : Seen :=
  mkSeen (null_ s) true (bool_ s) (float_ s) (int_ s) (sint_ s) (uint_ s)
    (object_ s).

Definition see_bool (s : Seen) : Seen :=
  mkSeen (null_ s) (nan_ s) true (float_ s) (int_ s) (sint_ s) (uint_ s)
    (object_ s).

Definition see_float (s : Seen) : Seen :=
  mkSeen (null_ s) (nan_ s) (bool_ s) true (int_ s) (sint_ s) (uint_ s)
    (object_ s).

Definition see_int (s : Seen) : Seen :=
  mkSeen (null_ s) (nan_ s) (bool_ s) (float_ s) true (sint_ s) (uint_ s)
    (object_ s).

Definition see_object (s : Seen) : Seen :=
  mkSeen (null_ s) (nan_ s) (bool_ s) (float_ s) (int_ s) (sint_ s) (uint_ s)
    true.

(** [seen.saw_int(val)] *)
Definition saw_int (val : Z) (s : Seen) : Seen :=
  mkSeen (null_ s) (nan_ s) (bool_ s) (float_ s) true
    (sint_ s || (int64_min <=? val) && (val <? 0))
    (uint_ s || (int64_max <? val) && (val <=? uint64_max))
    (object_ s).

(** The loop of [maybe_convert_objects] over the values of a column.  An
    int is first cast to a C double, which raises [OverflowError] when it
    is too large for one; its range is tested only while no [None] has been
    seen.  A string, a list, a dict, or an int outside the 64-bit types (or
    a mix of a negative int and one above the signed range) makes the
    column a column of objects and ends the loop. *)
Fixpoint scan (objects : list pyval) (seen : Seen) : py Seen :=
  match objects with
  | [] => ret seen
  | val :: rest =>
      match val with
      | PNone => scan rest (see_null seen)
      | PFloat f =>
          if PrimFloat.is_nan f then scan rest (see_nan seen)
          else scan rest (see_float seen)
      | PBool _ => scan rest (see_bool seen)
      | PInt z =>
          match Num.py_float (Num.NInt z) with
          | inl e => raise e
          | inr _ =>
              let seen := see_int seen in
              if null_ seen then scan rest seen
              else
                let seen := saw_int z seen in
                if uint_ seen && sint_ seen || (uint64_max <? z)
                   || (z <? int64_min)
                then ret (see_object seen)
                else scan rest seen
          end
      | PStr _ | PList _ | PDict _ => ret (see_object seen)
      end
  end.

(** A cell of the array of floats that the loop fills. *)
Definition to_float (v : pyval) : pyval :=
  match v with
  | PNone => nan_cell
  | PInt z => PFloat (Num.float_of_int z)
  | _ => v
  end.

(** [lib.maybe_convert_objects(objects)]: the verdict after the loop.  A
    column where a bool was seen keeps its values (as an array of bools
    when nothing else was seen, of objects otherwise), and so does a
    column of objects.  With a [None] or a NaN seen, a column that has a
    float, an int or a NaN becomes a column of floats, and a column of
    [None] alone stays as it is; without them, a column with a float
    becomes a column of floats and a column of ints keeps its ints. *)
Definition maybe_convert_objects (objects : list pyval) : py (list pyval) :=
  seen <- scan objects nothing_seen ;;
  ret (if bool_ seen || object_ seen then objects
       else if null_ seen || nan_ seen then
         if float_ seen || int_ seen || nan_ seen then map to_float objects
         else objects
       else if float_ seen then map to_float objects
       else objects).

Fixpoint convert_object_array (content : list (list pyval))
    : py (list (list pyval)) :=
  match content with
  | [] => ret []
  | arr :: content' =>
      arr' <- maybe_convert_objects arr ;;
      rest <- convert_object_array content' ;;
      ret (arr' :: rest)
  end.

(** [lib.dicts_to_array] on one cell: the value at the key, NaN when the
    record lacks it. *)
Definition cell_of (k : string) (d : list (string * pyval)) : pyval :=
  match lookup k d with
  | Some v => v
  | None => nan_cell
  end.

(** [pd.DataFrame(data)]; it raises what the conversion of a column
    raises. *)
Definition of_records (data : list (list (string * pyval))) : py DataFrame :=
  let labels := union_keys data in
  arrays <-
    convert_object_array (map (fun k => map (cell_of k) data) labels) ;;
  ret (mkDataFrame labels
         (map (fun i => map (cell i) arrays) (seq 0 (List.length data)))).

End Frame.

(** ** Messages *)

(** The calls to [st.error], [st.warning] and [st.info], by what they
    say. *)
Inductive notice : Type :=
| NotAList
| NonDictItems
| Renaming (existing col : string)
| MissingColumns (cols : list string)
| NoPlaylistColumn
| FileNotFound
| FileNotFoundHelp
| BadJson
| BadJsonHelp
| CannotFilter (col : string)
| EmptyFile
| Unexpected.

Inductive level : Type := Error | Warning | Info.

Definition level_of (n : notice) : level :=
  match n with
  | NotAList | FileNotFound | BadJson | Unexpected => Error
  | FileNotFoundHelp | BadJsonHelp => Info
  | NonDictItems | Renaming _ _ | MissingColumns _ | NoPlaylistColumn
  | CannotFilter _ | EmptyFile => Warning
  end.

(** What opening and parsing the file gives: [FileNotFoundError],
    [json.JSONDecodeError], another exception (the file cannot be read,
    or is not UTF-8 text), or the parsed value. *)
Inductive source : Type :=
| NoFile
| NotJson
| Unreadable
| Json (data : pyval).

Definition is_dict (v : pyval) : bool :=
  match v with PDict _ => true | _ => false end.

Definition dict_of (v : pyval) : list (string * pyval) :=
  match v with PDict d => d | _ => [] end.

Definition required_cols : list string :=
  ["Name"; "Artist"; "Playlist"; "Year"; "songlength"].

Definition target_playlist : string := "guitar hero 3".

(** The pieces of the Python runtime that are left open: the text [str]
    gives for a float that is not a NaN, the text it gives for a list or a
    dict, [s.lower()] for a text with a character outside ASCII, what
    [re.compile] and [search] do with a pattern that is outside the
    fragment of [Re.parse] or has a character outside ASCII (an exception,
    or a test of the cells), and whether a pattern of the fragment has a
    match in a text with a character outside ASCII. *)
Class Runtime : Type := {
  float_str : float -> string;
  container_str : pyval -> string;
  lower_wide : string -> string;
  re_other : string -> py (string -> bool);
  re_wide : Re.regex -> string -> bool
}.

Section Pipeline.

Context {R : Runtime}.

(** [str(v)], which is what [astype(str)] puts in each cell. *)
Definition py_str (v : pyval) : string :=
  match v with
  | PNone => "None"
  | PBool true => "True"
  | PBool false => "False"
  | PInt z => Dec.str_int z
  | PFloat f => if PrimFloat.is_nan f then "nan" else float_str f
  | PStr s => s
  | PList _ | PDict _ => container_str v
  end.

(** *** [load_song_data] *)

(** [s.lower()] *)
Definition py_lower (s : string) : string :=
  if Str.ascii_only s then Str.lower s else lower_wide s.

(** The first label that is [col] up to letter case. *)
Fixpoint find_ci (col : string) (labels : list string) : option string :=
  match labels with
  | [] => None
  | existing_col :: labels' =>
      if String.eqb (py_lower existing_col) (py_lower col)
      then Some existing_col
      else find_ci col labels'
  end.

(** One round of the loop over [required_cols]; the state is the table,
    the messages so far and [missing_cols]. *)
Definition require_col (st : DataFrame * list notice * list string)
    (col : string) : DataFrame * list notice * list string :=
  let '(df, out, missing_cols) := st in
  if Frame.mem col (columns df) then st
  else
    match find_ci col (columns df) with
    | Some existing_col =>
        (Frame.rename existing_col col df,
         (out ++ [Renaming existing_col col])%list, missing_cols)
    | None => (Frame.assign_none col df, out, (missing_cols ++ [col])%list)
    end.

(** [astype(str).str.split('\\').str[0]] on one cell *)
Definition playlist_prefix (v : pyval) : string :=
  Str.before_first Str.backslash (py_str v).

(** [replace('nan', None)] on one cell *)
Definition replace_nan (v : pyval) : pyval :=
  match v with
  | PStr s => if String.eqb s "nan" then PNone else v
  | _ => v
  end.

(** The tag of a cell of the [Playlist] column, when the column is
    processed. *)
Definition playlist_tag (v : pyval) : pyval :=
  replace_nan (PStr (playlist_prefix v)).

Definition process_playlist (df : DataFrame) : DataFrame * list notice :=
  if Frame.mem "Playlist" (columns df)
     && existsb Frame.notna (Frame.column df "Playlist")
  then (Frame.assign "Playlist"
          (map playlist_tag (Frame.column df "Playlist")) df, [])
  else if negb (Frame.mem "Playlist" (columns df))
  then (Frame.assign_none "Playlist" df, [NoPlaylistColumn])
  else (df, []).

(** [series == text] on one cell *)
Definition eq_text (text : string) (v : pyval) : bool :=
  match v with
  | PStr s => String.eqb s text
  | _ => false
  end.

(** The loop over [required_cols], and the warning on [missing_cols]
    that follows it. *)
Definition require_cols (df : DataFrame) : DataFrame * list notice :=
  let '(df, out, missing_cols) :=
    fold_left require_col required_cols (df, [], []) in
  match missing_cols with
  | [] => (df, out)
  | _ :: _ => (df, (out ++ [MissingColumns missing_cols])%list)
  end.

(** [df[df["Playlist"] == "guitar hero 3"]] *)
Definition keep_target (df : DataFrame) : DataFrame :=
  Frame.take (map (eq_text target_playlist) (Frame.column df "Playlist")) df.

(** The body of [load_song_data] once the file has been parsed to a
    list.  An exception met while the table is built is caught by the last
    [except] clause, after the messages shown so far. *)
Definition load_list (data : list pyval) : option DataFrame * list notice :=
  let '(data, out) :=
    if forallb is_dict data then (data, [])
    else (filter is_dict data, [NonDictItems]) in
  match Frame.of_records (map dict_of data) with
  | inl _ => (None, (out ++ [Unexpected])%list)
  | inr df =>
      let '(df, out1) := require_cols df in
      let '(df, out2) := process_playlist df in
      (Some (keep_target df), (out ++ out1 ++ out2)%list)
  end.

(** [load_song_data]: the table, or [None], with the messages shown. *)
Definition load_song_data (src : source) : option DataFrame * list notice :=
  match src with
  | NoFile => (None, [FileNotFound; FileNotFoundHelp])
  | NotJson => (None, [BadJson; BadJsonHelp])
  | Unreadable => (None, [Unexpected])
  | Json (PList data) => load_list data
  | Json _ => (None, [NotAList])
  end.

(** *** The filters *)

(** [search(x) is not None] for a compiled pattern of the fragment. *)
Definition re_search (r : Re.regex) (x : string) : bool :=
  if Str.ascii_only x then Re.search r x else re_wide r x.

(** [re.compile(pat, re.IGNORECASE)] and the test [search(x) is not None]
    that [str.contains] maps over the cells. *)
Definition re_compile (pat : string) : py (string -> bool) :=
  if Str.ascii_only pat then
    match Re.parse pat with
    | Re.Parsed r => ret (re_search r)
    | Re.Invalid => raise ReError
    | Re.Unsupported => re_other pat
    end
  else re_other pat.

(** [series.astype(str).str.contains(pat, case=False, na=False)] *)
Definition str_contains (pat : string) (series : list pyval)
    : py (list bool) :=
  found <- re_compile pat ;;
  ret (map (fun v => found (py_str v)) series).

(** One of the two filter blocks: [search] is the text typed, [col] the
    column it is matched against. *)
Definition filter_by (col search : string) (filtered_df : DataFrame)
    : py (DataFrame * list notice) :=
  match search with
  | EmptyString => ret (filtered_df, [])
  | String _ _ =>
      if Frame.mem col (columns filtered_df) then
        mask <- str_contains search (Frame.column filtered_df col) ;;
        ret (Frame.take mask filtered_df, [])
      else ret (filtered_df, [CannotFilter col])
  end.

(** The block "Apply Filters": [filtered_df] after both filters. *)
Definition apply_filters (df_songs : DataFrame)
    (search_name search_artist : string) : py (DataFrame * list notice) :=
  r1 <- filter_by "Name" search_name df_songs ;;
  r2 <- filter_by "Artist" search_artist (fst r1) ;;
  ret (fst r2, (snd r1 ++ snd r2)%list).

(** The script: the filters run only on a table that was loaded and is
    not empty. *)
Definition browse (src : source) (search_name search_artist : string)
    : py (option DataFrame * list notice) :=
  let '(df_songs, out) := load_song_data src in
  match df_songs with
  | Some df =>
      if Frame.empty df then ret (None, (out ++ [EmptyFile])%list)
      else
        r <- apply_filters df search_name search_artist ;;
        ret (Some (fst r), (out ++ snd r)%list)
  | None => ret (None, out)
  end.

End Pipeline.

(** ** What a row holds, and the shape of a duration *)

(** [row[label]] for a row of [df]. *)
Definition field (df : DataFrame) (label : string) (row : list pyval)
    : pyval :=
  match Frame.index_of label (columns df) with
  | Some j => Frame.cell j row
  | None => PNone
  end.

(** Every row has one cell per column. *)
Definition well_formed (df : DataFrame) : Prop :=
  Forall (fun row => List.length row = List.length (columns df)) (rows df).

(** The text is two digits, a colon and two digits. *)
Definition is_mmss (s : string) : bool :=
  match s with
  | String a (String b (String c (String d (String e EmptyString)))) =>
      Dec.is_digit a && Dec.is_digit b && Ascii.eqb c ":"
      && Dec.is_digit d && Dec.is_digit e
  | _ => false
  end.

(** An instance of the open pieces, for runs on inputs that have no float
    text, no list or dict in a cell, no character outside ASCII and no
    pattern outside the fragment. *)
Module Sample.

Definition runtime : Runtime := {|
  float_str := fun _ => "";
  container_str := fun _ => "";
  lower_wide := fun s => s;
  re_other := fun _ => raise ReError;
  re_wide := fun _ _ => false
|}.

(** A file with one record, of the target playlist, and the table it
    loads to. *)
Definition one_song (name : pyval) : source :=
  Json (PList [PDict [("Name", name); ("Playlist", PStr "guitar hero 3")]]).

Definition table_of (name : pyval) : DataFrame :=
  mkDataFrame ["Name"; "Playlist"; "Artist"; "Year"; "songlength"]
    [[name; PStr "guitar hero 3"; PNone; PNone; PNone]].

Definition missing_three : list notice :=
  [MissingColumns ["Artist"; "Year"; "songlength"]].

(** A table before its Playlist column is processed. *)
Definition raw_table : DataFrame :=
  mkDataFrame ["Name"; "Playlist"]
    [[PStr "One"; PStr "nan\x"]; [PStr "Two"; PStr "guitar hero 3"]].




(** Records whose playlist is an explicit null, a text that starts with
    "nan" and a backslash, missing, and the target; and their table. *)
Definition null_playlists : list (list (string * pyval)) :=
  [[("Name", PStr "One"); ("Playlist", PNone)];
   [("Name", PStr "Two"); ("Playlist", PStr "nan\x")];
   [("Name", PStr "Three")];
   [("Name", PStr "Four"); ("Playlist", PStr "guitar hero 3")]].

Definition null_table : DataFrame :=
  mkDataFrame ["Name"; "Playlist"]
    [[PStr "One"; PNone];
     [PStr "Two"; PStr "nan\x"];
     [PStr "Three"; Frame.nan_cell];
     [PStr "Four"; PStr "guitar hero 3"]].

End Sample.

(** ** Checks on binary64 numbers

    [scaled m e] is the value [m * 2^e] of a finite number, times [scale],
    which makes it an integer.  [ok63 i k] says, by float operations alone,
    that [float(i)] is finite and that [float(i) / 1000] is at least [k]
    and below [k + 1]; [runs_ok] makes the check on runs of a thousand
    consecutive ints. *)

Definition scale : Z := 2 ^ 1074.

Definition scaled (m : positive) (e : Z) : Z := Zpos m * 2 ^ (e + 1074).

(** [float(K)] is [m * 2^e] with [K = m * 2^e]. *)
Definition norm_ok (K : Z) : bool :=
  match binary_normalize prec emax K 0 false with
  | S754_finite false m e =>
      (e <=? 0) && (-1074 <=? e) && (Zpos m =? K * 2 ^ (- e))
  | _ => false
  end.

Definition ok63 (i k : int) : bool :=
  let f := of_uint63 i in
  let q := PrimFloat.div f 1000%float in
  negb (PrimFloat.is_infinity f)
  && PrimFloat.leb (of_uint63 k) q
  && PrimFloat.ltb q (of_uint63 (Uint63.add k 1)).

Fixpoint run_ok (n : nat) (i k : int) : bool :=
  match n with
  | O => true
  | S n' => if ok63 i k then run_ok n' (Uint63.add i 1) k else false
  end.

Fixpoint runs_ok (n : nat) (i k : int) : bool :=
  match n with
  | O => true
  | S n' =>
      if run_ok 1000 i k
      then runs_ok n' (Uint63.add i 1000) (Uint63.add k 1)
      else false
  end.

Definition head_is (P : ascii -> bool) (s : string) : bool :=
  match s with
  | EmptyString => false
  | String c _ => P c
  end.

Definition digit_or_minus (c : ascii) : bool :=
  Dec.is_digit c || Ascii.eqb c "-".

(** The guard of [format_songlength]: the value is [None], or is neither
    an int nor a float, or is below zero. *)
Definition not_available (v : pyval) : bool :=
  match Num.as_number v with
  | None => true
  | Some n => Num.lt0 n
  end.

(** ** Exact quotients

    [SFdiv] divides two mantissas, keeps the whole part of the quotient and
    notes where the rest stands; [loc_frac] and [holds_quotient] say this
    of a fraction [N / D].  [floor_seconds] is what [format_songlength] is
    compared with. *)

(** Where [N / D] stands between two integers: on one, or below, at or
    above the middle. *)
Definition loc_frac (N D : Z) : location :=
  if N mod D =? 0 then loc_Exact else loc_Inexact (2 * (N mod D) ?= D).

(** The record holds the quotient [N / D]: its whole part, and where the
    rest stands. *)
Definition holds_quotient (N D : Z) (mrs : shr_record) : Prop :=
  shr_m mrs = N / D /\ loc_of_shr_record mrs = loc_frac N D.

(** The number 1000 as a binary64 number: [thousand * 2^(-43)]. *)
Definition thousand : positive := 8796093022208000.

(** The number 6,000,000 as a binary64 number. *)
Definition six_million : positive := 6442450944000000.

(** The whole seconds [floor(n / 1000)] that the specification asks for,
    on the exact value of [n]: an int is divided as an int, and a float
    that is [m * 2^e] as the fraction it is.  It is asked only of numbers
    that are not below zero; a zero has none. *)
Definition floor_seconds (n : Num.number) : Z :=
  match n with
  | Num.NInt z => z / 1000
  | Num.NFloat f =>
      match Prim2SF f with
      | S754_finite false m e =>
          if 0 <=? e then Zpos m * 2 ^ e / 1000
          else Zpos m / (1000 * 2 ^ (- e))
      | _ => 0
      end
  end.

(** [n < 6000000] *)
Definition below_100_minutes (n : Num.number) : bool :=
  match n with
  | Num.NInt z => z <? 6000000
  | Num.NFloat f => PrimFloat.ltb f 6000000%float
  end.




(** * Properties *)

(** ** Lists and tables *)

Lemma select_map_filter {A : Type} (f : A -> bool) (l : list A) :
  Frame.select (map f l) l = filter f l.
Proof.
  induction l as [|x l IH]; simpl; [reflexivity|].
  destruct (f x); simpl; now rewrite IH.
Qed.

Lemma mem_index_of (x : string) (l : list string) :
  Frame.mem x l = true -> exists j, Frame.index_of x l = Some j.
Proof.
  induction l as [|y l IH]; simpl; [discriminate|].
  destruct (String.eqb x y); simpl; [now exists O|].
  intros H. destruct (IH H) as [j Hj]. rewrite Hj. now exists (S j).
Qed.

Lemma index_of_mem (x : string) (l : list string) (j : nat) :
  Frame.index_of x l = Some j -> Frame.mem x l = true.
Proof.
  revert j. induction l as [|y l IH]; simpl; [discriminate|].
  intros j. destruct (String.eqb x y); simpl; [reflexivity|].
  destruct (Frame.index_of x l); simpl; [|discriminate].
  intros _. now apply (IH n).
Qed.

Lemma column_field (df : DataFrame) (label : string) :
  Frame.mem label (columns df) = true ->
  Frame.column df label = map (field df label) (rows df).
Proof.
  intros H. destruct (mem_index_of _ _ H) as [j Hj].
  unfold Frame.column, field. now rewrite Hj.
Qed.

Lemma mem_In (x : string) (l : list string) :
  Frame.mem x l = true <-> In x l.
Proof.
  unfold Frame.mem. rewrite existsb_exists. split.
  - intros [y [Hy E]]. apply String.eqb_eq in E. now subst.
  - intros H. exists x. split; [assumption|apply String.eqb_refl].
Qed.

Lemma columns_assign (label : string) (series : list pyval) (df : DataFrame) :
  forall c, Frame.mem c (columns df) = true \/ c = label ->
            Frame.mem c (columns (Frame.assign label series df)) = true.
Proof.
  intros c H. unfold Frame.assign.
  destruct (Frame.index_of label (columns df)) as [j|] eqn:E; simpl.
  - destruct H as [H| ->]; [assumption|]. now apply index_of_mem with j.
  - apply mem_In, in_or_app. destruct H as [H| ->].
    + left. now apply mem_In.
    + right. now left.
Qed.



Lemma filter_all_in {A : Type} (p : A -> bool) (l : list A) :
  forallb p l = true -> filter p l = l.
Proof.
  induction l as [|x l IH]; simpl; [reflexivity|].
  intros H. apply andb_true_iff in H. destruct H as [Hx Hl].
  now rewrite Hx, (IH Hl).
Qed.


Section LoaderFacts.

Context {R : Runtime}.

Lemma find_ci_found (col : string) (labels : list string) (existing : string) :
  find_ci col labels = Some existing ->
  In existing labels /\ py_lower existing = py_lower col.
Proof.
  induction labels as [|l labels IH]; simpl; [discriminate|].
  destruct (String.eqb (py_lower l) (py_lower col)) eqn:E.
  - intros [= <-]. apply String.eqb_eq in E. split; [now left|assumption].
  - intros H. destruct (IH H). split; [now right|assumption].
Qed.

(** A round of the loop leaves its column in the table. *)
Lemma require_col_adds (st : DataFrame * list notice * list string)
    (col : string) :
  Frame.mem col (columns (fst (fst (require_col st col)))) = true.
Proof.
  destruct st as [[df out] missing]. unfold require_col.
  destruct (Frame.mem col (columns df)) eqn:E; simpl; [assumption|].
  destruct (find_ci col (columns df)) as [existing|] eqn:F; simpl.
  - apply find_ci_found in F. destruct F as [Hin _].
    apply mem_In. simpl. apply in_map_iff. exists existing.
    split; [now rewrite String.eqb_refl|assumption].
  - apply columns_assign. now right.
Qed.

(** A round of the loop keeps the columns whose label differs from its
    own in more than letter case. *)
Lemma require_col_keeps (st : DataFrame * list notice * list string)
    (col c : string) :
  py_lower c <> py_lower col ->
  Frame.mem c (columns (fst (fst st))) = true ->
  Frame.mem c (columns (fst (fst (require_col st col)))) = true.
Proof.
  destruct st as [[df out] missing]. unfold require_col. simpl.
  intros Hne Hc.
  destruct (Frame.mem col (columns df)) eqn:E; simpl; [assumption|].
  destruct (find_ci col (columns df)) as [existing|] eqn:F; simpl.
  - apply find_ci_found in F. destruct F as [_ Hl].
    apply mem_In. apply in_map_iff. exists c. split; [|now apply mem_In].
    destruct (String.eqb c existing) eqn:Ec; [|reflexivity].
    apply String.eqb_eq in Ec. subst c. now rewrite Hl in Hne.
  - apply columns_assign. now left.
Qed.

Lemma required_cols_present (df : DataFrame) (c : string) :
  In c required_cols ->
  Frame.mem c
    (columns (fst (fst (fold_left require_col required_cols (df, [], [])))))
  = true.
Proof.
  unfold required_cols. cbn [fold_left].
  set (s0 := (df, @nil notice, @nil string)).
  set (s1 := require_col s0 "Name").
  set (s2 := require_col s1 "Artist").
  set (s3 := require_col s2 "Playlist").
  set (s4 := require_col s3 "Year").
  intros [<-|[<-|[<-|[<-|[<-|[]]]]]].
  - repeat (apply require_col_keeps; [vm_compute; discriminate|]).
    apply require_col_adds.
  - repeat (apply require_col_keeps; [vm_compute; discriminate|]).
    apply require_col_adds.
  - repeat (apply require_col_keeps; [vm_compute; discriminate|]).
    apply require_col_adds.
  - repeat (apply require_col_keeps; [vm_compute; discriminate|]).
    apply require_col_adds.
  - apply require_col_adds.
Qed.

Lemma process_playlist_keeps (df : DataFrame) (c : string) :
  Frame.mem c (columns df) = true ->
  Frame.mem c (columns (fst (process_playlist df))) = true.
Proof.
  intros H. unfold process_playlist.
  destruct (Frame.mem "Playlist" (columns df)
            && existsb Frame.notna (Frame.column df "Playlist")); simpl.
  - apply columns_assign. now left.
  - destruct (negb (Frame.mem "Playlist" (columns df))); simpl; [|assumption].
    apply columns_assign. now left.
Qed.

Lemma process_playlist_has (df : DataFrame) :
  Frame.mem "Playlist" (columns (fst (process_playlist df))) = true.
Proof.
  unfold process_playlist.
  destruct (Frame.mem "Playlist" (columns df)) eqn:E; simpl.
  - destruct (existsb Frame.notna (Frame.column df "Playlist")); simpl;
      [|assumption].
    apply columns_assign. now left.
  - apply columns_assign. now right.
Qed.

Lemma require_cols_fold (df : DataFrame) :
  fst (require_cols df)
  = fst (fst (fold_left require_col required_cols (df, [], []))).
Proof.
  unfold require_cols.
  destruct (fold_left require_col required_cols (df, [], []))
    as [[df1 out1] missing].
  now destruct missing.
Qed.

Lemma require_cols_present (df : DataFrame) (c : string) :
  In c required_cols ->
  Frame.mem c (columns (fst (require_cols df))) = true.
Proof.
  intros Hc. rewrite require_cols_fold. now apply required_cols_present.
Qed.

(** The stages of [load_list]: the table of the records, the table with
    the required columns, and the processed table that the playlist filter
    reads. *)
Lemma load_list_stages (data : list pyval) :
  match Frame.of_records (map dict_of (filter is_dict data)) with
  | inl _ =>
      load_list data
      = (None,
         ((if forallb is_dict data then [] else [NonDictItems])
            ++ [Unexpected])%list)
  | inr table =>
      load_list data
      = (Some (keep_target (fst (process_playlist (fst (require_cols table))))),
         ((if forallb is_dict data then [] else [NonDictItems])
            ++ snd (require_cols table)
            ++ snd (process_playlist (fst (require_cols table))))%list)
  end.
Proof.
  unfold load_list. destruct (forallb is_dict data) eqn:F.
  - rewrite (filter_all_in _ _ F).
    destruct (Frame.of_records (map dict_of data)) as [e|table];
      [reflexivity|].
    destruct (require_cols table) as [df1 out1]. cbn [fst snd].
    now destruct (process_playlist df1) as [df2 out2].
  - destruct (Frame.of_records (map dict_of (filter is_dict data)))
      as [e|table]; [reflexivity|].
    destruct (require_cols table) as [df1 out1]. cbn [fst snd].
    now destruct (process_playlist df1) as [df2 out2].
Qed.

(** A table that was loaded comes from a list: it is the selection, by
    playlist, of the processed table of the dicts of the list. *)
Lemma load_song_data_stages (src : source) (df : DataFrame)
    (out : list notice) :
  load_song_data src = (Some df, out) ->
  exists (data : list pyval) (table : DataFrame),
    src = Json (PList data)
    /\ Frame.of_records (map dict_of (filter is_dict data)) = inr table
    /\ df = keep_target (fst (process_playlist (fst (require_cols table)))).
Proof.
  destruct src as [| | |data]; try discriminate.
  destruct data; try discriminate. simpl.
  pose proof (load_list_stages l) as S.
  destruct (Frame.of_records (map dict_of (filter is_dict l)))
    as [e|table] eqn:E.
  - rewrite S. discriminate.
  - rewrite S. intros [= <- <-]. now exists l, table.
Qed.

Lemma load_song_data_shape (src : source) (df : DataFrame) (out : list notice) :
  load_song_data src = (Some df, out) ->
  exists df0 : DataFrame,
    df = keep_target df0
    /\ forall c, In c required_cols -> Frame.mem c (columns df0) = true.
Proof.
  intros H. destruct (load_song_data_stages _ _ _ H) as [data [table [_ [_ E]]]].
  exists (fst (process_playlist (fst (require_cols table)))).
  split; [exact E|].
  intros c Hc. apply process_playlist_keeps. now apply require_cols_present.
Qed.

End LoaderFacts.

(** ** Rows stay as wide as the table *)

Lemma combine_map_self {A B : Type} (g : A -> B) (l : list A) :
  combine l (map g l) = map (fun x => (x, g x)) l.
Proof.
  induction l as [|x l IH]; simpl; [reflexivity|now rewrite IH].
Qed.

Lemma set_cell_length (j : nat) (v : pyval) (row : list pyval) :
  List.length (Frame.set_cell j v row) = List.length row.
Proof.
  revert j. induction row as [|x row IH]; intros [|j]; simpl; try reflexivity.
  now rewrite IH.
Qed.

Lemma cell_set_cell (j : nat) (v : pyval) (row : list pyval) :
  (j < List.length row)%nat -> Frame.cell j (Frame.set_cell j v row) = v.
Proof.
  unfold Frame.cell. revert j.
  induction row as [|x row IH]; intros [|j]; simpl; try lia; [reflexivity|].
  intros H. apply IH. lia.
Qed.

Lemma index_of_lt (x : string) (l : list string) (j : nat) :
  Frame.index_of x l = Some j -> (j < List.length l)%nat.
Proof.
  revert j. induction l as [|y l IH]; simpl; [discriminate|].
  intros j. destruct (String.eqb x y); [intros [= <-]; lia|].
  destruct (Frame.index_of x l) as [n|]; simpl; [|discriminate].
  intros [= <-]. specialize (IH n eq_refl). lia.
Qed.


(** [df[label] = f(df[label])] rewrites the cell of every row. *)
Lemma assign_map_rows (label : string) (f : pyval -> pyval) (df : DataFrame)
    (j : nat) :
  Frame.index_of label (columns df) = Some j ->
  Frame.assign label (map f (Frame.column df label)) df
  = mkDataFrame (columns df)
      (map (fun row => Frame.set_cell j (f (Frame.cell j row)) row) (rows df)).
Proof.
  intros H. unfold Frame.assign, Frame.column. rewrite H. f_equal.
  rewrite map_map, combine_map_self, map_map. reflexivity.
Qed.



(** ** The table of the records *)









(** ** What the loader keeps true of its table *)




Section LoaderInvariants.

Context {R : Runtime}.







Lemma keep_target_rows (df : DataFrame) :
  Frame.mem "Playlist" (columns df) = true ->
  rows (keep_target df)
  = filter (fun row => eq_text target_playlist (field df "Playlist" row))
      (rows df).
Proof.
  intros H. unfold keep_target, Frame.take; simpl.
  rewrite (column_field _ _ H), map_map. apply select_map_filter.
Qed.





End LoaderInvariants.

(** ** The loader *)

Section LoaderClaims.

Context {R : Runtime}.

Lemma loaded_playlist_is_target (src : source) (df : DataFrame)
    (out : list notice) :
  load_song_data src = (Some df, out) ->
  Frame.mem "Playlist" (columns df) = true
  /\ Forall (fun row => field df "Playlist" row = PStr "guitar hero 3")
       (rows df).
Proof.
  intros H. destruct (load_song_data_shape _ _ _ H) as [df0 [-> Hc]].
  assert (Hp : Frame.mem "Playlist" (columns df0) = true).
  { apply Hc. simpl. tauto. }
  split; [exact Hp|].
  rewrite (keep_target_rows _ Hp).
  apply Forall_forall. intros row Hrow. apply filter_In in Hrow.
  destruct Hrow as [_ Hrow].
  unfold field in *; simpl.
  destruct (Frame.index_of "Playlist" (columns df0)); [|discriminate].
  destruct (Frame.cell n row); try discriminate.
  simpl in Hrow. apply String.eqb_eq in Hrow. now subst.
Qed.

(** C4: every row of the table that [load_song_data] returns has the text
    "guitar hero 3", letter for letter, in its Playlist cell; a record
    whose playlist is "guitar hero 3\bonus" is kept, with the text before
    the backslash as its playlist, and a record whose playlist is
    "rock band" is left out. *)
Theorem loaded_rows_are_guitar_hero_3 :
  (forall (src : source) (df : DataFrame) (out : list notice),
      load_song_data src = (Some df, out) ->
      Frame.mem "Playlist" (columns df) = true
      /\ Forall (fun row => field df "Playlist" row = PStr "guitar hero 3")
           (rows df))
  /\ fst (load_song_data
            (Json (PList [PDict [("Name", PStr "One");
                                 ("Playlist", PStr "guitar hero 3\bonus")]])))
     = Some (mkDataFrame ["Name"; "Playlist"; "Artist"; "Year"; "songlength"]
               [[PStr "One"; PStr "guitar hero 3"; PNone; PNone; PNone]])
  /\ fst (load_song_data
            (Json (PList [PDict [("Name", PStr "One");
                                 ("Playlist", PStr "rock band")]])))
     = Some (mkDataFrame ["Name"; "Playlist"; "Artist"; "Year"; "songlength"]
               [])
  /\ fst (load_song_data
            (Json (PList [PDict [("Name", PStr "One");
                                 ("Playlist", PStr "Guitar Hero 3")]])))
     = Some (mkDataFrame ["Name"; "Playlist"; "Artist"; "Year"; "songlength"]
               []).
Proof.
  split; [exact loaded_playlist_is_target|].
  repeat split; vm_compute; reflexivity.
Qed.

(** C6: when the file holds JSON whose top value is not a list, the loader
    returns [None], so no table and no row, and shows one message, an
    error; the script stops there, whatever is typed. *)
Theorem non_list_is_rejected (data : pyval) :
  (forall l : list pyval, data <> PList l) ->
  load_song_data (Json data) = (None, [NotAList])
  /\ level_of NotAList = Error
  /\ forall search_name search_artist : string,
       browse (Json data) search_name search_artist
       = inr (None, [NotAList]).
Proof.
  intros H.
  assert (E : load_song_data (Json data) = (None, [NotAList])).
  { destruct data; try reflexivity. now destruct (H l). }
  split; [exact E|]. split; [reflexivity|].
  intros n a. unfold browse. now rewrite E.
Qed.



(** C10, amended: in a well-formed table with a Playlist column (such is
    the table that [load_list] hands to [process_playlist]), a row whose
    playlist text before the first backslash is "nan" gets the tag [None],
    the one a record without a playlist key, whose cell is a NaN, gets;
    its Playlist cell is null after the column is processed, and no row
    like it is in the table that the playlist filter keeps. *)
Theorem nan_prefix_is_dropped (df : DataFrame) (row : list pyval) (i : nat) :
  well_formed df ->
  Frame.mem "Playlist" (columns df) = true ->
  nth_error (rows df) i = Some row ->
  playlist_prefix (field df "Playlist" row) = "nan" ->
  playlist_tag (field df "Playlist" row) = PNone
  /\ (forall v : pyval, Frame.is_nan v = true -> playlist_tag v = PNone)
  /\ exists row' : list pyval,
       nth_error (rows (fst (process_playlist df))) i = Some row'
       /\ Frame.notna (field (fst (process_playlist df)) "Playlist" row')
          = false
       /\ ~ In row' (rows (keep_target (fst (process_playlist df)))).
Proof.
  intros W Hp Hi Hnan.
  split; [unfold playlist_tag; now rewrite Hnan|].
  split.
  { intros v Hv. destruct v; try discriminate. simpl in Hv.
    unfold playlist_tag, playlist_prefix, py_str. now rewrite Hv. }
  assert (Hkeep : forall (df' : DataFrame) (row' : list pyval),
             Frame.mem "Playlist" (columns df') = true ->
             Frame.notna (field df' "Playlist" row') = false ->
             ~ In row' (rows (keep_target df'))).
  { intros df' row' Hp' Hn Hin. rewrite (keep_target_rows _ Hp') in Hin.
    apply filter_In in Hin. destruct Hin as [_ Hin].
    destruct (field df' "Playlist" row'); cbv in Hn; simpl in Hin;
      discriminate. }
  pose proof (process_playlist_has df) as Hp'.
  destruct (mem_index_of _ _ Hp) as [j Hj].
  unfold process_playlist in *. rewrite Hp in *. simpl andb in *.
  unfold field in Hnan. rewrite Hj in Hnan.
  destruct (existsb Frame.notna (Frame.column df "Playlist")) eqn:E.
  - rewrite (assign_map_rows _ _ _ _ Hj) in *. simpl fst in *.
    exists (Frame.set_cell j (playlist_tag (Frame.cell j row)) row).
    assert (Hcell : field
                      (mkDataFrame (columns df)
                         (map (fun r => Frame.set_cell j
                                 (playlist_tag (Frame.cell j r)) r) (rows df)))
                      "Playlist"
                      (Frame.set_cell j (playlist_tag (Frame.cell j row)) row)
                    = PNone).
    { unfold field; simpl. rewrite Hj, cell_set_cell.
      - unfold playlist_tag. now rewrite Hnan.
      - unfold well_formed in W. rewrite Forall_forall in W.
        rewrite (W row (nth_error_In _ _ Hi)). now apply index_of_lt with "Playlist". }
    split; [|split].
    + simpl. now rewrite nth_error_map, Hi.
    + now rewrite Hcell.
    + apply Hkeep; [exact Hp'|now rewrite Hcell].
  - simpl. exists row.
    assert (Hn : Frame.notna (field df "Playlist" row) = false).
    { unfold field. rewrite Hj.
      destruct (Frame.notna (Frame.cell j row)) eqn:N; [|reflexivity].
      assert (X : existsb Frame.notna (Frame.column df "Playlist") = true).
      { apply existsb_exists. exists (Frame.cell j row). split; [|exact N].
        unfold Frame.column. rewrite Hj. apply in_map.
        now apply nth_error_In with i. }
      congruence. }
    split; [exact Hi|]. split; [exact Hn|]. now apply Hkeep.
Qed.

End LoaderClaims.

(** ** The filters *)

Section FilterClaims.

Context {R : Runtime}.

(** One filter block on a query of ASCII characters that compiles, in the
    fragment, to [r]. *)
Lemma filter_by_pattern (col search : string) (r : Re.regex) (df : DataFrame) :
  search <> "" ->
  Str.ascii_only search = true ->
  Re.parse search = Re.Parsed r ->
  Frame.mem col (columns df) = true ->
  filter_by col search df
  = inr (mkDataFrame (columns df)
           (filter (fun row => re_search r (py_str (field df col row)))
              (rows df)),
         []).
Proof.
  intros Hq Ha Hp Hc. unfold filter_by. destruct search as [|c q]; [easy|].
  rewrite Hc. unfold str_contains, re_compile. rewrite Ha, Hp. simpl.
  rewrite (column_field _ _ Hc), map_map.
  unfold Frame.take. simpl. now rewrite select_map_filter.
Qed.

(** The name filter alone, on such a query. *)
Lemma name_filter_pattern (search : string) (r : Re.regex) (df : DataFrame) :
  search <> "" ->
  Str.ascii_only search = true ->
  Re.parse search = Re.Parsed r ->
  Frame.mem "Name" (columns df) = true ->
  apply_filters df search ""
  = inr (mkDataFrame (columns df)
           (filter (fun row => re_search r (py_str (field df "Name" row)))
              (rows df)),
         []).
Proof.
  intros Hq Ha Hp Hc. unfold apply_filters.
  now rewrite (filter_by_pattern "Name" search r df Hq Ha Hp Hc).
Qed.

(** C8: with nothing typed in either box, the filters return the table
    they were given, rows and order unchanged, and show no message. *)
Theorem empty_queries_keep_everything (df_songs : DataFrame) :
  apply_filters df_songs "" "" = inr (df_songs, []).
Proof. reflexivity. Qed.

Lemma loaded_has_required (src : source) (df : DataFrame) (out : list notice)
    (c : string) :
  load_song_data src = (Some df, out) ->
  In c required_cols ->
  Frame.mem c (columns df) = true.
Proof.
  intros H Hc. destruct (load_song_data_shape _ _ _ H) as [df0 [-> H0]].
  now apply H0.
Qed.

(** C1: on a loaded table, the name query "." keeps every row whose Name,
    as text, is made of ASCII characters and does not start with a line
    break, whether the text has a "." in it or not: the query is compiled
    as a pattern, in which "." stands for any character. *)
Theorem dot_query_keeps_names_without_dot (src : source) (df : DataFrame)
    (out : list notice) (row : list pyval) (c : ascii) (s : string) :
  load_song_data src = (Some df, out) ->
  In row (rows df) ->
  py_str (field df "Name" row) = String c s ->
  Str.ascii_only (String c s) = true ->
  c <> Str.newline ->
  exists df' : DataFrame,
    apply_filters df "." "" = inr (df', []) /\ In row (rows df').
Proof.
  intros H Hin Hs Ha Hc.
  assert (Hn : Frame.mem "Name" (columns df) = true).
  { apply (loaded_has_required _ _ _ _ H). simpl. tauto. }
  rewrite (name_filter_pattern "." (Re.Seq Re.Any Re.Eps) df)
    by (try reflexivity; try assumption; discriminate).
  eexists. split; [reflexivity|]. simpl.
  apply filter_In. split; [assumption|].
  rewrite Hs. unfold re_search. rewrite Ha. unfold Re.search.
  cbn [Re.search_from Re.matches].
  destruct (Ascii.eqb_spec c Str.newline) as [E|_]; [contradiction|].
  reflexivity.
Qed.

(** C3: on a loaded table, the name query "(" does not compile and the
    filters raise [re.error], whatever the artist query is; when the table
    has a row, the script raises with them. *)
Theorem open_paren_query_raises (src : source) (df : DataFrame)
    (out : list notice) (search_artist : string) :
  load_song_data src = (Some df, out) ->
  apply_filters df "(" search_artist = inl ReError
  /\ (Frame.empty df = false -> browse src "(" search_artist = inl ReError).
Proof.
  intros H.
  assert (E : apply_filters df "(" search_artist = inl ReError).
  { unfold apply_filters, filter_by.
    rewrite (loaded_has_required _ _ _ "Name" H); [reflexivity|].
    simpl. tauto. }
  split; [exact E|].
  intros Hne. unfold browse. now rewrite H, Hne, E.
Qed.

(** C9: on a loaded table, a row whose Name is [None] is kept by the name
    query "none", and a row whose Name is a NaN by the query "nan": the
    cell is matched as the text "None", or "nan". *)
Theorem null_name_matches_none (src : source) (df : DataFrame)
    (out : list notice) (row : list pyval) :
  load_song_data src = (Some df, out) ->
  In row (rows df) ->
  (field df "Name" row = PNone ->
   exists df' : DataFrame,
     apply_filters df "none" "" = inr (df', []) /\ In row (rows df'))
  /\ (Frame.is_nan (field df "Name" row) = true ->
      exists df' : DataFrame,
        apply_filters df "nan" "" = inr (df', []) /\ In row (rows df')).
Proof.
  intros H Hin.
  assert (Hn : Frame.mem "Name" (columns df) = true).
  { apply (loaded_has_required _ _ _ _ H). simpl. tauto. }
  split; intros Hnull.
  - destruct (Re.parse "none") as [r| |] eqn:P; try discriminate.
    rewrite (name_filter_pattern "none" r df)
      by (try reflexivity; try assumption; discriminate).
    eexists. split; [reflexivity|]. simpl.
    apply filter_In. split; [assumption|]. rewrite Hnull.
    vm_compute in P. injection P as <-. reflexivity.
  - destruct (Re.parse "nan") as [r| |] eqn:P; try discriminate.
    rewrite (name_filter_pattern "nan" r df)
      by (try reflexivity; try assumption; discriminate).
    eexists. split; [reflexivity|]. simpl.
    apply filter_In. split; [assumption|].
    destruct (field df "Name" row); try discriminate.
    simpl in Hnull. unfold py_str. rewrite Hnull.
    vm_compute in P. injection P as <-. reflexivity.
Qed.

End FilterClaims.

(** ** Durations *)

Lemma digit_value_char (d : Z) :
  0 <= d < 10 -> Dec.digit_value (Dec.digit_char d) = d.
Proof.
  intros H.
  assert (E : d = 0 \/ d = 1 \/ d = 2 \/ d = 3 \/ d = 4 \/ d = 5 \/ d = 6
              \/ d = 7 \/ d = 8 \/ d = 9) by lia.
  repeat (destruct E as [->|E]; [reflexivity|]). now subst.
Qed.

Lemma append_assoc (x y z : string) : (x ++ y) ++ z = x ++ (y ++ z).
Proof.
  induction x as [|c x IH]; simpl; [reflexivity|now rewrite IH].
Qed.

Lemma length_append (x y : string) :
  String.length (x ++ y) = (String.length x + String.length y)%nat.
Proof.
  induction x as [|c x IH]; simpl; [reflexivity|now rewrite IH].
Qed.

Lemma read_append (x y : string) (a : Z) :
  Dec.read (x ++ y) a = Dec.read y (Dec.read x a).
Proof.
  revert a. induction x as [|c x IH]; intros a; simpl; [reflexivity|].
  apply IH.
Qed.

(** With enough rounds, [digits_aux] puts the decimal digits of [n] in
    front of what it was given. *)
Lemma digits_aux_read (fuel : nat) (n : Z) (acc : string) :
  0 <= n < 10 ^ Z.of_nat fuel ->
  exists pre : string,
    Dec.digits_aux fuel n acc = pre ++ acc
    /\ forall a : Z,
         Dec.read pre a = a * 10 ^ Z.of_nat (String.length pre) + n.
Proof.
  revert n acc. induction fuel as [|fuel IH]; intros n acc H.
  - change (10 ^ Z.of_nat 0) with 1 in H. assert (n = 0) by lia. subst n.
    exists "". split; [reflexivity|]. intros a. cbn [Dec.read String.length].
    change (10 ^ Z.of_nat 0) with 1. lia.
  - cbn [Dec.digits_aux]. destruct (Z.ltb_spec n 10) as [Hs|Hb].
    + exists (String (Dec.digit_char (n mod 10)) "").
      split; [reflexivity|]. intros a. cbn [Dec.read String.length].
      rewrite digit_value_char by (apply Z.mod_pos_bound; lia).
      rewrite Z.mod_small by lia. change (10 ^ Z.of_nat 1) with 10. lia.
    + rewrite Nat2Z.inj_succ, Z.pow_succ_r in H by lia.
      destruct (IH (n / 10) (String (Dec.digit_char (n mod 10)) acc))
        as [pre [E Hr]].
      { split; [apply Z.div_pos; lia|apply Z.div_lt_upper_bound; lia]. }
      exists (pre ++ String (Dec.digit_char (n mod 10)) "").
      split.
      * rewrite E, append_assoc. reflexivity.
      * intros a. rewrite read_append, Hr. cbn [Dec.read].
        rewrite digit_value_char by (apply Z.mod_pos_bound; lia).
        rewrite length_append. cbn [String.length].
        rewrite Nat.add_1_r, Nat2Z.inj_succ, Z.pow_succ_r by lia.
        pose proof (Z.div_mod n 10). lia.
Qed.

(** [digits] writes [n]: reading its text back gives [n]. *)
Lemma digits_read (n : Z) : 0 <= n -> Dec.read (Dec.digits n) 0 = n.
Proof.
  intros H. unfold Dec.digits.
  destruct (digits_aux_read (S (Z.to_nat (Z.log2 n))) n "") as [pre [E Hr]].
  - split; [exact H|].
    rewrite Nat2Z.inj_succ, Z2Nat.id by apply Z.log2_nonneg.
    destruct (Z.eq_dec n 0) as [->|Hn]; [reflexivity|].
    apply Z.lt_le_trans with (2 ^ Z.succ (Z.log2 n)).
    + apply Z.log2_spec. lia.
    + apply Z.pow_le_mono_l. split; [lia|lia].
  - rewrite E, read_append, Hr. cbn [Dec.read]. lia.
Qed.

Lemma digit_char_is_digit (d : Z) :
  0 <= d < 10 -> Dec.is_digit (Dec.digit_char d) = true.
Proof.
  intros H.
  assert (E : d = 0 \/ d = 1 \/ d = 2 \/ d = 3 \/ d = 4 \/ d = 5 \/ d = 6
              \/ d = 7 \/ d = 8 \/ d = 9) by lia.
  repeat (destruct E as [->|E]; [reflexivity|]). now subst.
Qed.

Lemma digits_aux_head (fuel : nat) (n : Z) (acc : string) :
  head_is Dec.is_digit acc = true ->
  head_is Dec.is_digit (Dec.digits_aux fuel n acc) = true.
Proof.
  revert n acc. induction fuel as [|fuel IH]; intros n acc H; simpl.
  - exact H.
  - assert (D : head_is Dec.is_digit
                  (String (Dec.digit_char (n mod 10)) acc) = true).
    { simpl. apply digit_char_is_digit. apply Z.mod_pos_bound. lia. }
    destruct (n <? 10); [exact D|]. now apply IH.
Qed.

Lemma digits_head (n : Z) : head_is Dec.is_digit (Dec.digits n) = true.
Proof.
  unfold Dec.digits. cbn [Dec.digits_aux].
  assert (D : head_is Dec.is_digit
                (String (Dec.digit_char (n mod 10)) "") = true).
  { simpl. apply digit_char_is_digit. apply Z.mod_pos_bound. lia. }
  destruct (n <? 10); [exact D|]. now apply digits_aux_head.
Qed.

Lemma fmt02_head (n : Z) : head_is digit_or_minus (Dec.fmt02 n) = true.
Proof.
  unfold Dec.fmt02. destruct (n <? 0); [reflexivity|].
  destruct (String.length (Dec.digits n) <? 2)%nat; [reflexivity|].
  pose proof (digits_head n) as H.
  destruct (Dec.digits n); [discriminate|]. simpl in *.
  unfold digit_or_minus. now rewrite H.
Qed.

(** A formatted duration starts with a digit or a sign, so it is none of
    the three fixed answers. *)
Lemma mmss_head (t : Z) : head_is digit_or_minus (mmss t) = true.
Proof.
  unfold mmss. pose proof (fmt02_head (t / 60)) as H.
  destruct (Dec.fmt02 (t / 60)); [discriminate|exact H].
Qed.

Lemma mmss_not_fixed (t : Z) :
  mmss t <> "N/A" /\ mmss t <> "Invalid" /\ mmss t <> "Error".
Proof.
  pose proof (mmss_head t) as H.
  repeat split; intros E; rewrite E in H; discriminate.
Qed.

(** A NaN is not below zero, and [int] refuses it. *)
Lemma nan_is_invalid (f : float) :
  PrimFloat.is_nan f = true -> format_songlength (PFloat f) = "Invalid".
Proof.
  intros H.
  assert (N : Prim2SF f = S754_nan) by (unfold Prim2SF; now rewrite H).
  unfold format_songlength. cbn [Num.as_number Num.lt0].
  rewrite FloatAxioms.ltb_spec, N. cbn [SFltb SFcompare].
  unfold total_seconds_of, Num.py_float, Num.py_int. cbn [bind ret].
  now rewrite FloatAxioms.div_spec, N.
Qed.

Lemma not_available_iff (v : pyval) :
  format_songlength v = "N/A" <-> not_available v = true.
Proof.
  unfold format_songlength, not_available.
  destruct (Num.as_number v) as [n|]; [|tauto].
  destruct (Num.lt0 n); [tauto|].
  split; [|discriminate].
  destruct (total_seconds_of n) as [e|t].
  - destruct e; discriminate.
  - intros E. now destruct (mmss_not_fixed t) as [X _].
Qed.

(** C2, amended: the answer is "N/A" exactly when the value is [None], is
    neither an int nor a float, or is below zero, so for [None], for -5
    and for every string, "abc" among them; "Invalid" is the answer for a
    float that is a NaN. *)
Theorem not_available_exactly_on_guard :
  (forall v : pyval, format_songlength v = "N/A" <-> not_available v = true)
  /\ format_songlength PNone = "N/A"
  /\ format_songlength (PInt (-5)) = "N/A"
  /\ (forall s : string, format_songlength (PStr s) = "N/A")
  /\ (forall f : float,
         PrimFloat.is_nan f = true -> format_songlength (PFloat f) = "Invalid").
Proof.
  split; [exact not_available_iff|].
  split; [reflexivity|]. split; [reflexivity|]. split; [reflexivity|].
  exact nan_is_invalid.
Qed.

(** C2, as stated, fails: the string "abc" gets "N/A", not "Invalid". *)
Lemma malformed_string_is_not_available :
  format_songlength (PStr "abc") = "N/A"
  /\ format_songlength (PStr "abc") <> "Invalid".
Proof. split; [reflexivity|discriminate]. Qed.

Lemma fmt02_below_100 (n : Z) :
  0 <= n < 100 ->
  Dec.fmt02 n
  = String (Dec.digit_char (n / 10)) (String (Dec.digit_char (n mod 10)) "").
Proof.
  intros H.
  assert (A : forallb
                (fun k =>
                   String.eqb (Dec.fmt02 (Z.of_nat k))
                     (String (Dec.digit_char (Z.of_nat k / 10))
                        (String (Dec.digit_char (Z.of_nat k mod 10)) "")))
                (seq 0 100) = true) by (vm_compute; reflexivity).
  rewrite forallb_forall in A.
  specialize (A (Z.to_nat n)). rewrite Z2Nat.id in A by lia.
  apply String.eqb_eq, A, in_seq. lia.
Qed.

(** Below a hundred minutes the text is two digits, a colon and two
    digits. *)
Lemma mmss_below_6000 (t : Z) :
  0 <= t < 6000 ->
  mmss t
  = String (Dec.digit_char (t / 60 / 10))
      (String (Dec.digit_char (t / 60 mod 10))
         (String ":"
            (String (Dec.digit_char (t mod 60 / 10))
               (String (Dec.digit_char (t mod 60 mod 10)) ""))))
  /\ is_mmss (mmss t) = true.
Proof.
  intros H.
  assert (Hm : 0 <= t / 60 < 100).
  { split; [apply Z.div_pos; lia|apply Z.div_lt_upper_bound; lia]. }
  assert (Hs : 0 <= t mod 60 < 60) by (apply Z.mod_pos_bound; lia).
  assert (E : mmss t
              = String (Dec.digit_char (t / 60 / 10))
                  (String (Dec.digit_char (t / 60 mod 10))
                     (String ":"
                        (String (Dec.digit_char (t mod 60 / 10))
                           (String (Dec.digit_char (t mod 60 mod 10)) ""))))).
  { unfold mmss. rewrite (fmt02_below_100 (t / 60)) by lia.
    rewrite (fmt02_below_100 (t mod 60)) by lia. reflexivity. }
  split; [exact E|]. rewrite E. unfold is_mmss.
  rewrite !digit_char_is_digit; [reflexivity| | | |].
  - apply Z.mod_pos_bound. lia.
  - split; [apply Z.div_pos; lia|apply Z.div_lt_upper_bound; lia].
  - apply Z.mod_pos_bound. lia.
  - split; [apply Z.div_pos; lia|apply Z.div_lt_upper_bound; lia].
Qed.

(** ** Truncated quotients of ints *)

Lemma digits2_bounds (m : positive) :
  2 ^ (Zpos (digits2_pos m) - 1) <= Zpos m < 2 ^ Zpos (digits2_pos m).
Proof.
  induction m as [m IH|m IH|]; cbn [digits2_pos].
  - rewrite Pos2Z.inj_succ.
    replace (Z.succ (Zpos (digits2_pos m)) - 1) with (Z.succ (Zpos (digits2_pos m) - 1)) by lia.
    rewrite !Z.pow_succ_r by lia. lia.
  - rewrite Pos2Z.inj_succ.
    replace (Z.succ (Zpos (digits2_pos m)) - 1) with (Z.succ (Zpos (digits2_pos m) - 1)) by lia.
    rewrite !Z.pow_succ_r by lia. lia.
  - simpl. lia.
Qed.

Lemma valid_finite (s : bool) (m : positive) (e : Z) :
  valid_binary (S754_finite s m e) = true ->
  -1074 <= e /\ Zpos m < 2 ^ 53 /\ (-1074 < e -> 2 ^ 52 <= Zpos m).
Proof.
  unfold SpecFloat.valid_binary, bounded, canonical_mantissa, fexp,
    SpecFloat.emin, prec, emax.
  intros H. apply andb_true_iff in H. destruct H as [H _].
  apply Z.eqb_eq in H. change IntDef.Z.max with Z.max in H.
  pose proof (digits2_bounds m) as [Lo Hi].
  set (d := Zpos (digits2_pos m)) in *.
  assert (Hd : 0 < d) by (unfold d; lia).
  split; [lia|]. split.
  - apply Z.lt_le_trans with (2 ^ d); [exact Hi|].
    apply Z.pow_le_mono_r; lia.
  - intros He. assert (d = 53) by lia.
    replace 52 with (d - 1) by lia. exact Lo.
Qed.

Lemma scaled_lt_exp (m1 m2 : positive) (e1 e2 : Z) :
  -1074 <= e1 -> e1 < e2 -> Zpos m1 < 2 ^ 53 -> 2 ^ 52 <= Zpos m2 ->
  scaled m1 e1 < scaled m2 e2.
Proof.
  intros H1 H12 Hm1 Hm2. unfold scaled.
  assert (P1 : 0 < 2 ^ (e1 + 1074)) by (apply Z.pow_pos_nonneg; lia).
  assert (P2 : 2 * 2 ^ (e1 + 1074) <= 2 ^ (e2 + 1074)).
  { rewrite <- Z.pow_succ_r by lia. apply Z.pow_le_mono_r; lia. }
  change (2 ^ 53) with (2 * 2 ^ 52) in Hm1.
  assert (Q : 0 < 2 ^ 52) by reflexivity.
  nia.
Qed.

Lemma compare_scaled (m1 m2 : positive) (e1 e2 : Z) :
  valid_binary (S754_finite false m1 e1) = true ->
  valid_binary (S754_finite false m2 e2) = true ->
  match SFcompare (S754_finite false m1 e1) (S754_finite false m2 e2) with
  | Some Lt => scaled m1 e1 < scaled m2 e2
  | Some Eq => scaled m1 e1 = scaled m2 e2
  | Some Gt => scaled m2 e2 < scaled m1 e1
  | None => False
  end.
Proof.
  intros V1 V2. apply valid_finite in V1, V2.
  destruct V1 as [A1 [B1 C1]], V2 as [A2 [B2 C2]].
  unfold SFcompare. destruct (Z.compare_spec e1 e2) as [E|E|E].
  - subst e2. change (Pos.compare_cont Eq m1 m2) with (Pos.compare m1 m2).
    unfold scaled.
    assert (P : 0 < 2 ^ (e1 + 1074)) by (apply Z.pow_pos_nonneg; lia).
    destruct (Pos.compare_spec m1 m2) as [F|F|F].
    + now subst.
    + apply Z.mul_lt_mono_pos_r; [exact P|lia].
    + apply Z.mul_lt_mono_pos_r; [exact P|lia].
  - apply scaled_lt_exp; lia.
  - apply scaled_lt_exp; lia.
Qed.

Lemma scale_pos : 0 < scale.
Proof. unfold scale. apply Z.pow_pos_nonneg; lia. Qed.

Lemma scale_split (x : Z) : 0 <= x <= 1074 -> scale = 2 ^ x * 2 ^ (1074 - x).
Proof.
  intros H. unfold scale. rewrite <- Z.pow_add_r by lia. f_equal. lia.
Qed.

(** [int(f)] on a number whose value is at least [K] and below [K + 1]. *)
Lemma py_int_between (m : positive) (e K : Z) :
  -1074 <= e ->
  K * scale <= scaled m e < (K + 1) * scale ->
  match e with
  | Z0 => Zpos m
  | Zpos p => Zpos m * 2 ^ Zpos p
  | Zneg p => Zpos m / 2 ^ Zpos p
  end = K.
Proof.
  intros He [Lo Hi]. unfold scaled in *.
  pose proof scale_pos as P.
  destruct e as [|p|p].
  - change (2 ^ (0 + 1074)) with scale in *. nia.
  - rewrite Z.pow_add_r in Lo, Hi by lia.
    change (2 ^ 1074) with scale in *.
    assert (Q : 0 < 2 ^ Zpos p) by (apply Z.pow_pos_nonneg; lia).
    nia.
  - assert (Q : 0 < 2 ^ Zpos p) by (apply Z.pow_pos_nonneg; lia).
    assert (S : 0 < 2 ^ (Zneg p + 1074)) by (apply Z.pow_pos_nonneg; lia).
    rewrite (scale_split (Zpos p)) in Lo, Hi by lia.
    replace (1074 - Zpos p) with (Zneg p + 1074) in Lo, Hi by lia.
    symmetry. apply Z.div_unique with (Zpos m - K * 2 ^ Zpos p); nia.
Qed.

Lemma norm_table (K : Z) :
  1 <= K <= 6000 ->
  exists m e, binary_normalize prec emax K 0 false = S754_finite false m e
              /\ scaled m e = K * scale.
Proof.
  intros H.
  assert (A : forallb (fun k => norm_ok (Z.of_nat k)) (seq 1 (Z.to_nat 6000))
              = true)
    by (vm_compute; reflexivity).
  rewrite forallb_forall in A. specialize (A (Z.to_nat K)).
  rewrite Z2Nat.id in A by lia.
  assert (I : In (Z.to_nat K) (seq 1 (Z.to_nat 6000))) by (apply in_seq; lia).
  specialize (A I). unfold norm_ok in A.
  destruct (binary_normalize prec emax K 0 false) as [| | |s m e];
    try discriminate.
  destruct s; [discriminate|].
  apply andb_true_iff in A. destruct A as [A Em].
  apply andb_true_iff in A. destruct A as [Ehi Elo].
  apply Z.leb_le in Ehi, Elo. apply Z.eqb_eq in Em.
  exists m, e. split; [reflexivity|].
  unfold scaled. rewrite Em, (scale_split (- e)) by lia.
  replace (1074 - - e) with (e + 1074) by lia. ring.
Qed.

Lemma to_Z_of_Z_small (z : Z) :
  0 <= z < wB -> Uint63.to_Z (Uint63.of_Z z) = z.
Proof.
  intros H. rewrite Uint63.of_Z_spec. now apply Z.mod_small.
Qed.

Lemma wB_big : 6000000 < wB.
Proof. reflexivity. Qed.

Lemma py_int_of_bracket (q : float) (K : Z) :
  0 <= K < 6000 ->
  PrimFloat.leb (of_uint63 (Uint63.of_Z K)) q = true ->
  PrimFloat.ltb q (of_uint63 (Uint63.of_Z (K + 1))) = true ->
  Num.py_int q = inr K.
Proof.
  intros HK Hle Hlt. pose proof wB_big as W.
  rewrite FloatAxioms.leb_spec, of_uint63_spec, to_Z_of_Z_small in Hle by lia.
  rewrite FloatAxioms.ltb_spec, of_uint63_spec, to_Z_of_Z_small in Hlt by lia.
  pose proof (Prim2SF_valid q) as Vq.
  pose proof (Prim2SF_valid (of_uint63 (Uint63.of_Z (K + 1)))) as Vhi.
  rewrite of_uint63_spec, to_Z_of_Z_small in Vhi by lia.
  pose proof (Prim2SF_valid (of_uint63 (Uint63.of_Z K))) as Vlo.
  rewrite of_uint63_spec, to_Z_of_Z_small in Vlo by lia.
  destruct (norm_table (K + 1)) as [m' [e' [Ehi Shi]]]; [lia|].
  rewrite Ehi in Hlt, Vhi.
  assert (Lo : K = 0
               \/ exists mk ek,
                    binary_normalize prec emax K 0 false
                    = S754_finite false mk ek
                    /\ scaled mk ek = K * scale).
  { destruct (Z.eq_dec K 0) as [E|E]; [now left|right].
    apply norm_table. lia. }
  unfold Num.py_int.
  destruct Lo as [->|[mk [ek [Elo Slo]]]].
  - (* K = 0 *)
    change (binary_normalize prec emax 0 0 false) with (S754_zero false)
      in Hle.
    destruct (Prim2SF q) as [s|s| |s m e]; try discriminate.
    + reflexivity.
    + now destruct s.
    + destruct s; [discriminate|].
      unfold ret. f_equal. apply py_int_between.
      * apply valid_finite in Vq. lia.
      * pose proof (compare_scaled m m' e e' Vq Vhi) as Chi.
        unfold SFltb in Hlt.
        destruct (SFcompare (S754_finite false m e) (S754_finite false m' e'))
          as [[| |]|]; try discriminate.
        split; [|lia]. unfold scaled.
        assert (0 < 2 ^ (e + 1074)).
        { apply Z.pow_pos_nonneg; [lia|]. apply valid_finite in Vq. lia. }
        pose proof scale_pos. nia.
  - rewrite Elo in Hle, Vlo.
    destruct (Prim2SF q) as [s|s| |s m e]; try discriminate.
    + now destruct s.
    + destruct s; [discriminate|].
      unfold ret. f_equal. apply py_int_between.
      * apply valid_finite in Vq. lia.
      * pose proof (compare_scaled m m' e e' Vq Vhi) as Chi.
        pose proof (compare_scaled mk m ek e Vlo Vq) as Clo.
        unfold SFltb in Hlt. unfold SFleb in Hle.
        destruct (SFcompare (S754_finite false m e) (S754_finite false m' e'))
          as [[| |]|]; try discriminate.
        destruct (SFcompare (S754_finite false mk ek) (S754_finite false m e))
          as [[| |]|]; try discriminate; lia.
Qed.

Lemma float_of_int_small (z : Z) :
  0 <= z < wB -> Num.float_of_int z = of_uint63 (Uint63.of_Z z).
Proof.
  intros H. unfold Num.float_of_int.
  rewrite <- (SF2Prim_Prim2SF (of_uint63 (Uint63.of_Z z))).
  now rewrite of_uint63_spec, to_Z_of_Z_small.
Qed.

Lemma of_Z_add (a b : Z) :
  Uint63.add (Uint63.of_Z a) (Uint63.of_Z b) = Uint63.of_Z (a + b).
Proof.
  apply Uint63.to_Z_inj.
  rewrite Uint63.add_spec, !Uint63.of_Z_spec.
  symmetry. apply Z.add_mod. apply Uint63.wB_diff_0.
Qed.

Lemma run_ok_sound (n : nat) (I K : Z) :
  run_ok n (Uint63.of_Z I) (Uint63.of_Z K) = true ->
  forall d : Z, 0 <= d < Z.of_nat n ->
    ok63 (Uint63.of_Z (I + d)) (Uint63.of_Z K) = true.
Proof.
  revert I. induction n as [|n IH]; intros I H d Hd; [lia|].
  cbn [run_ok] in H.
  destruct (ok63 (Uint63.of_Z I) (Uint63.of_Z K)) eqn:E; [|discriminate].
  destruct (Z.eq_dec d 0) as [->|Hn].
  - now rewrite Z.add_0_r.
  - change 1%uint63 with (Uint63.of_Z 1) in H. rewrite of_Z_add in H.
    replace (I + d) with (I + 1 + (d - 1)) by lia. apply IH; [exact H|lia].
Qed.

Lemma runs_ok_sound (n : nat) (I K : Z) :
  runs_ok n (Uint63.of_Z I) (Uint63.of_Z K) = true ->
  forall b d : Z, 0 <= b < Z.of_nat n -> 0 <= d < 1000 ->
    ok63 (Uint63.of_Z (I + 1000 * b + d)) (Uint63.of_Z (K + b)) = true.
Proof.
  revert I K. induction n as [|n IH]; intros I K H b d Hb Hd; [lia|].
  cbn [runs_ok] in H.
  destruct (run_ok 1000 (Uint63.of_Z I) (Uint63.of_Z K)) eqn:E;
    [|discriminate].
  destruct (Z.eq_dec b 0) as [->|Hn].
  - rewrite Z.mul_0_r, !Z.add_0_r.
    apply (run_ok_sound 1000 I K E). lia.
  - change 1000%uint63 with (Uint63.of_Z 1000) in H.
    change 1%uint63 with (Uint63.of_Z 1) in H.
    rewrite !of_Z_add in H.
    replace (I + 1000 * b + d) with (I + 1000 + 1000 * (b - 1) + d) by lia.
    replace (K + b) with (K + 1 + (b - 1)) by lia.
    apply IH; [exact H|lia|lia].
Qed.

Lemma every_ms_ok (ms : Z) :
  0 <= ms < 6000000 ->
  ok63 (Uint63.of_Z ms) (Uint63.of_Z (ms / 1000)) = true.
Proof.
  intros H.
  assert (A : runs_ok (Z.to_nat 6000) (Uint63.of_Z 0) (Uint63.of_Z 0) = true)
    by (vm_compute; reflexivity).
  pose proof (runs_ok_sound _ 0 0 A (ms / 1000) (ms mod 1000)) as B.
  rewrite Z.add_0_l in B. simpl (0 + _) in B.
  rewrite <- Z.div_mod in B by lia.
  apply B.
  - split; [apply Z.div_pos; lia|].
    rewrite Z2Nat.id by lia. apply Z.div_lt_upper_bound; lia.
  - apply Z.mod_pos_bound. lia.
Qed.

(** [int(float(ms) / 1000)] is [ms // 1000] for an int below six
    million. *)
Lemma total_seconds_of_int (ms : Z) :
  0 <= ms < 6000000 ->
  total_seconds_of (Num.NInt ms) = inr (ms / 1000).
Proof.
  intros H. pose proof (every_ms_ok ms H) as A. pose proof wB_big as W.
  unfold ok63 in A. cbv zeta in A.
  apply andb_true_iff in A. destruct A as [A Hlt].
  apply andb_true_iff in A. destruct A as [Hinf Hle].
  apply negb_true_iff in Hinf.
  change 1%uint63 with (Uint63.of_Z 1) in Hlt. rewrite of_Z_add in Hlt.
  unfold total_seconds_of, Num.py_float.
  rewrite float_of_int_small by lia. rewrite Hinf. simpl.
  apply py_int_of_bracket; try assumption.
  split; [apply Z.div_pos; lia|apply Z.div_lt_upper_bound; lia].
Qed.


(** ** Truncated quotients of floats

    [f / 1000] is computed by [SFdiv]: the quotient of the two mantissas,
    shifted to the exponent its size asks for, rounded to the nearest
    number and shifted again when the rounding needs one more bit. *)

Lemma loc_frac_double (N D : Z) :
  0 < D -> 0 <= N ->
  loc_frac N (2 * D)
  = match (N / D) mod 2 =? 0, N mod D =? 0 with
    | true, true => loc_Exact
    | true, false => loc_Inexact Lt
    | false, true => loc_Inexact Eq
    | false, false => loc_Inexact Gt
    end.
Proof.
  intros HD HN. unfold loc_frac.
  replace (2 * D) with (D * 2) by lia.
  rewrite Z.rem_mul_r by lia.
  pose proof (Z.mod_pos_bound N D HD) as B.
  pose proof (Z.mod_pos_bound (N / D) 2 eq_refl) as B2.
  destruct (Z.eqb_spec ((N / D) mod 2) 0) as [E|E].
  - rewrite E, Z.mul_0_r, Z.add_0_r.
    destruct (Z.eqb_spec (N mod D) 0) as [F|F]; [reflexivity|].
    f_equal. apply Z.compare_lt_iff. lia.
  - assert (E1 : (N / D) mod 2 = 1) by lia. rewrite E1, Z.mul_1_r.
    destruct (Z.eqb_spec (N mod D + D) 0) as [X|_]; [lia|].
    destruct (Z.eqb_spec (N mod D) 0) as [F|F]; f_equal.
    + rewrite F. apply Z.compare_eq_iff. lia.
    + apply Z.compare_gt_iff. lia.
Qed.

Lemma shr_1_quotient (N D : Z) (mrs : shr_record) :
  0 < D -> 0 <= N ->
  holds_quotient N D mrs -> holds_quotient N (2 * D) (shr_1 mrs).
Proof.
  intros HD HN [Hm Hl]. unfold holds_quotient.
  rewrite loc_frac_double by assumption.
  replace (N / (2 * D)) with (N / D / 2)
    by (rewrite Z.div_div by lia; f_equal; lia).
  assert (Hq : 0 <= N / D) by (apply Z.div_pos; lia).
  destruct mrs as [m r s]. simpl in Hm, Hl. rewrite <- Hm in *.
  assert (Hrs : orb r s = negb (N mod D =? 0)).
  { unfold loc_frac in Hl. destruct (N mod D =? 0), r, s; simpl in *;
      try reflexivity; discriminate. }
  unfold shr_1. rewrite Hrs.
  destruct m as [|[p|p|]|p]; simpl shr_m; simpl loc_of_shr_record;
    try lia.
  - change (0 / 2) with 0. change (0 mod 2 =? 0) with true.
    split; [reflexivity|]. now destruct (N mod D =? 0).
  - split.
    + rewrite Pos2Z.inj_xI. apply Z.div_unique with 1; lia.
    + replace (Zpos p~1 mod 2 =? 0) with false.
      * now destruct (N mod D =? 0).
      * symmetry. apply Z.eqb_neq. rewrite Pos2Z.inj_xI.
        rewrite Z.add_comm, Z.mul_comm, Z.mod_add by lia. discriminate.
  - split.
    + rewrite Pos2Z.inj_xO. apply Z.div_unique with 0; lia.
    + replace (Zpos p~0 mod 2 =? 0) with true.
      * now destruct (N mod D =? 0).
      * symmetry. apply Z.eqb_eq. rewrite Pos2Z.inj_xO.
        rewrite Z.mul_comm. apply Z.mod_mul. lia.
  - change (1 / 2) with 0. change (1 mod 2 =? 0) with false.
    split; [reflexivity|]. now destruct (N mod D =? 0).
Qed.

Lemma pow2_xO (p : positive) : 2 ^ Zpos p~0 = 2 ^ Zpos p * 2 ^ Zpos p.
Proof.
  replace (Zpos p~0) with (Zpos p + Zpos p) by lia.
  apply Z.pow_add_r; lia.
Qed.

Lemma pow2_xI (p : positive) : 2 ^ Zpos p~1 = 2 * (2 ^ Zpos p * 2 ^ Zpos p).
Proof.
  replace (Zpos p~1) with (Z.succ (Zpos p + Zpos p)) by lia.
  rewrite Z.pow_succ_r, Z.pow_add_r by lia. reflexivity.
Qed.

Lemma iter_shr_1_quotient (N : Z) (p : positive) :
  0 <= N ->
  forall (D : Z) (mrs : shr_record),
    0 < D ->
    holds_quotient N D mrs ->
    holds_quotient N (D * 2 ^ Zpos p) (iter_pos shr_1 p mrs).
Proof.
  intros HN. induction p as [p IH|p IH|]; intros D mrs HD H.
  - cbn [iter_pos]. rewrite pow2_xI.
    replace (D * (2 * (2 ^ Zpos p * 2 ^ Zpos p)))
      with (2 * D * 2 ^ Zpos p * 2 ^ Zpos p) by ring.
    assert (P : 0 < 2 ^ Zpos p) by (apply Z.pow_pos_nonneg; lia).
    apply IH; [nia|]. apply IH; [lia|]. now apply shr_1_quotient.
  - cbn [iter_pos]. rewrite pow2_xO.
    replace (D * (2 ^ Zpos p * 2 ^ Zpos p))
      with (D * 2 ^ Zpos p * 2 ^ Zpos p) by ring.
    assert (P : 0 < 2 ^ Zpos p) by (apply Z.pow_pos_nonneg; lia).
    apply IH; [nia|]. now apply IH.
  - cbn [iter_pos]. change (2 ^ 1) with 2. rewrite Z.mul_comm.
    now apply shr_1_quotient.
Qed.

Lemma record_of_quotient (N D : Z) :
  holds_quotient N D (shr_record_of_loc (N / D) (loc_frac N D)).
Proof.
  unfold holds_quotient. destruct (loc_frac N D) as [|[| |]]; now split.
Qed.

(** Shifting the quotient [N / D], at exponent [e], to the exponent that
    its size asks for: the quotient [N / (D * 2^k)], at exponent
    [e + k]. *)
Lemma shr_fexp_quotient (N D e : Z) :
  0 < D -> 0 <= N ->
  exists k : Z,
    0 <= k
    /\ e + k = Z.max e (fexp prec emax (Zdigits2 (N / D) + e))
    /\ snd (shr_fexp prec emax (N / D) e (loc_frac N D)) = e + k
    /\ holds_quotient N (D * 2 ^ k)
         (fst (shr_fexp prec emax (N / D) e (loc_frac N D))).
Proof.
  intros HD HN. unfold shr_fexp, shr.
  pose proof (record_of_quotient N D) as H.
  change (IntDef.Z.sub ?a ?b) with (a - b).
  change (IntDef.Z.add ?a ?b) with (a + b).
  set (n := fexp prec emax (Zdigits2 (N / D) + e) - e).
  assert (En : fexp prec emax (Zdigits2 (N / D) + e) = e + n) by (unfold n; lia).
  rewrite En. destruct n as [|p|p].
  - exists 0. simpl fst. simpl snd. rewrite Z.mul_1_r.
    repeat split; try lia. apply H. apply H.
  - exists (Zpos p). simpl fst. simpl snd.
    split; [lia|]. split; [lia|]. split; [reflexivity|].
    now apply iter_shr_1_quotient.
  - exists 0. simpl fst. simpl snd. rewrite Z.mul_1_r.
    repeat split; try lia. apply H. apply H.
Qed.

Lemma thousand_spec : Prim2SF 1000%float = S754_finite false thousand (-43).
Proof. reflexivity. Qed.

Lemma thousand_value : Zpos thousand = 1000 * 2 ^ 43.
Proof. reflexivity. Qed.

Lemma round_nearest_even_quotient (N D : Z) (mrs : shr_record) :
  0 < D -> 0 <= N ->
  holds_quotient N D mrs ->
  let M := round_nearest_even (shr_m mrs) (loc_of_shr_record mrs) in
  N / D <= M <= N / D + 1 /\ (M = N / D + 1 -> D <= 2 * (N mod D)).
Proof.
  intros HD HN [Hm Hl] M. subst M. unfold round_nearest_even.
  rewrite Hm, Hl. unfold loc_frac.
  change (IntDef.Z.add ?a ?b) with (a + b).
  pose proof (Z.mod_pos_bound N D HD) as B.
  destruct (Z.eqb_spec (N mod D) 0) as [Z|Z]; [lia|].
  destruct (Z.compare_spec (2 * (N mod D)) D) as [E|E|E].
  - destruct (IntDef.Z.even (N / D)); lia.
  - lia.
  - lia.
Qed.

(** [binary_round_aux] on the quotient [N / D] at exponent [e0]: the
    quotient is shifted by [k1] bits, rounded to [M], and [M] is shifted
    by [k2] bits. *)
Lemma round_aux_quotient (N D e0 : Z) :
  0 < D -> 0 <= N ->
  exists (k1 k2 M : Z),
    0 <= k1
    /\ e0 + k1 = Z.max e0 (fexp prec emax (Zdigits2 (N / D) + e0))
    /\ N / (D * 2 ^ k1) <= M <= N / (D * 2 ^ k1) + 1
    /\ (M = N / (D * 2 ^ k1) + 1 -> D * 2 ^ k1 <= 2 * (N mod (D * 2 ^ k1)))
    /\ 0 <= k2
    /\ e0 + k1 + k2
       = Z.max (e0 + k1) (fexp prec emax (Zdigits2 M + (e0 + k1)))
    /\ binary_round_aux prec emax false (N / D) e0 (loc_frac N D)
       = match M / 2 ^ k2 with
         | Z0 => S754_zero false
         | Zpos mm =>
             if e0 + k1 + k2 <=? emax - prec
             then S754_finite false mm (e0 + k1 + k2)
             else S754_infinity false
         | Zneg _ => S754_nan
         end.
Proof.
  intros HD HN. unfold binary_round_aux.
  destruct (shr_fexp_quotient N D e0 HD HN) as [k1 [Hk1 [E1 [S1 H1]]]].
  destruct (shr_fexp prec emax (N / D) e0 (loc_frac N D)) as [mrs1 e1].
  cbn [fst snd] in S1, H1. subst e1.
  assert (P1 : 0 < 2 ^ k1) by (apply Z.pow_pos_nonneg; lia).
  assert (HD1 : 0 < D * 2 ^ k1) by nia.
  destruct (round_nearest_even_quotient N (D * 2 ^ k1) mrs1 HD1 HN H1)
    as [B Bad].
  set (M := round_nearest_even (shr_m mrs1) (loc_of_shr_record mrs1)) in *.
  assert (HM : 0 <= M).
  { assert (0 <= N / (D * 2 ^ k1)) by (apply Z.div_pos; lia). lia. }
  destruct (shr_fexp_quotient M 1 (e0 + k1) eq_refl HM)
    as [k2 [Hk2 [E2 [S2 H2]]]].
  assert (L : loc_frac M 1 = loc_Exact).
  { unfold loc_frac. now rewrite Z.mod_1_r. }
  rewrite Z.div_1_r, L in S2, H2.
  destruct (shr_fexp prec emax M (e0 + k1) loc_Exact) as [mrs2 e2].
  cbn [fst snd] in S2, H2. subst e2. destruct H2 as [H2 _].
  rewrite Z.mul_1_l in H2. rewrite H2.
  exists k1, k2, M. rewrite Z.div_1_r in E2.
  repeat split; try assumption; try lia.
Qed.

Lemma SFdiv_1000 (m : positive) (e : Z) :
  SFdiv prec emax (S754_finite false m e) (S754_finite false thousand (-43))
  = let e0 := Z.min (fexp prec emax (Zpos (digits2_pos m) + e - 10)) (e + 43) in
    let N := Zpos m * 2 ^ (e + 43 - e0) in
    binary_round_aux prec emax false (N / Zpos thousand) e0
      (loc_frac N (Zpos thousand)).
Proof.
  unfold SFdiv, SFdiv_core_binary. cbv zeta.
  change (Zdigits2 (Zpos thousand)) with 53.
  change (Zdigits2 (Zpos m)) with (Zpos (digits2_pos m)).
  change (IntDef.Z.sub ?a ?b) with (a - b).
  change (IntDef.Z.add ?a ?b) with (a + b).
  change (IntDef.Z.min ?a ?b) with (Z.min a b).
  replace (Zpos (digits2_pos m) + e - (53 + -43))
    with (Zpos (digits2_pos m) + e - 10) by lia.
  replace (e - -43) with (e + 43) by lia.
  set (e0 := Z.min (fexp prec emax (Zpos (digits2_pos m) + e - 10)) (e + 43)).
  assert (Hs : 0 <= e + 43 - e0) by (unfold e0; lia).
  set (s := e + 43 - e0) in *.
  assert (Em : match s with
               | Zpos _ => IntDef.Z.shiftl (Zpos m) s
               | Z0 => Zpos m
               | Zneg _ => 0
               end = Zpos m * 2 ^ s).
  { destruct s as [|p|p]; [change (2 ^ 0) with 1; lia| |lia].
    change (IntDef.Z.shiftl ?a ?b) with (Z.shiftl a b).
    apply Z.shiftl_mul_pow2. lia. }
  rewrite Em. set (N := Zpos m * 2 ^ s).
  change (IntDef.Z.div_eucl ?a ?b) with (Z.div_eucl a b).
  pose proof (Z.div_eucl_eq N (Zpos thousand)) as Q.
  unfold Z.div, Z.modulo, loc_frac.
  unfold Z.modulo.
  destruct (Z.div_eucl N (Zpos thousand)) as [q r].
  reflexivity.
Qed.

Lemma fexp_eq (z : Z) : fexp prec emax z = Z.max (z - 53) (-1074).
Proof. reflexivity. Qed.

Lemma zdigits2_le (M k : Z) : 0 <= M < 2 ^ k -> 0 <= k -> Zdigits2 M <= k.
Proof.
  intros [Lo Hi] Hk. destruct M as [|p|p]; [exact Hk| |lia].
  simpl. pose proof (digits2_bounds p) as [B _].
  assert (L : 2 ^ (Zpos (digits2_pos p) - 1) < 2 ^ k) by lia.
  apply Z.pow_lt_mono_r_iff in L; lia.
Qed.

Lemma pow2_pos (k : Z) : 0 <= k -> 0 < 2 ^ k.
Proof. intros H. apply Z.pow_pos_nonneg; lia. Qed.

Lemma pow2_split (a b : Z) : 0 <= a -> 0 <= b -> 2 ^ (a + b) = 2 ^ a * 2 ^ b.
Proof. intros. apply Z.pow_add_r; lia. Qed.

(** A number below six million has an exponent of at most -30. *)
Lemma small_exponent (m : positive) (e : Z) :
  valid_binary (S754_finite false m e) = true ->
  scaled m e < 6000000 * scale ->
  -1074 <= e <= -30 /\ Zpos m < 2 ^ 53.
Proof.
  intros V H. apply valid_finite in V. destruct V as [He [Hm Hn]].
  split; [|exact Hm]. split; [exact He|].
  destruct (Z.eq_dec e (-1074)) as [->|Ne]; [lia|].
  assert (Hn' : 2 ^ 52 <= Zpos m) by (apply Hn; lia).
  destruct (Z.le_gt_cases e (-30)) as [L|G]; [exact L|exfalso].
  unfold scaled, scale in H.
  replace (e + 1074) with (1045 + (e + 29)) in H by lia.
  rewrite (pow2_split 1045 (e + 29)) in H by lia.
  assert (P : 1 <= 2 ^ (e + 29)).
  { change 1 with (2 ^ 0). apply Z.pow_le_mono_r; lia. }
  assert (Q : 6000000 * 2 ^ 1074 < 2 ^ 52 * 2 ^ 1045) by reflexivity.
  assert (P0 : 0 < 2 ^ 1045) by reflexivity.
  nia.
Qed.

Lemma mul_le_cancel (a b c : Z) : 0 < c -> a * c <= b * c -> a <= b.
Proof. intros Hc H. now apply Z.mul_le_mono_pos_r with c. Qed.

Lemma mul_lt_cancel (a b c : Z) : 0 < c -> a * c < b * c -> a < b.
Proof. intros Hc H. now apply Z.mul_lt_mono_pos_r with c. Qed.

(** The whole part [a] of a quotient, seen at the scale of its unit [P1],
    brackets the number [S] that was divided; with the bracket of [S]
    between [1000 * K] and [1000 * (K + 1)] it stands between [K] and
    [K + 1]. *)
Lemma quotient_bracket (S P0 P1 G T N D1 a rho K : Z) :
  0 < P0 -> 0 < P1 -> 0 < G -> 0 < T ->
  N * P0 = S * T ->
  D1 * P0 = 1000 * T * P1 ->
  N = D1 * a + rho ->
  0 <= rho < D1 ->
  K * (1000 * (P1 * G)) <= S < (K + 1) * (1000 * (P1 * G)) ->
  (a * (1000 * P1) <= S < (a + 1) * (1000 * P1))
  /\ K * G <= a /\ a + 1 <= (K + 1) * G.
Proof.
  intros HP0 HP1 HG HT Key KeyD DM RB [Lo Hi].
  assert (A1 : a * (1000 * P1) <= S).
  { apply mul_le_cancel with T; [exact HT|].
    replace (a * (1000 * P1) * T) with (a * (1000 * T * P1)) by ring.
    rewrite <- KeyD, <- Key.
    replace (a * (D1 * P0)) with (D1 * a * P0) by ring.
    apply Z.mul_le_mono_nonneg_r; lia. }
  assert (A2 : S < (a + 1) * (1000 * P1)).
  { apply mul_lt_cancel with T; [exact HT|].
    replace ((a + 1) * (1000 * P1) * T) with ((a + 1) * (1000 * T * P1))
      by ring.
    rewrite <- KeyD, <- Key.
    replace ((a + 1) * (D1 * P0)) with ((D1 * a + D1) * P0) by ring.
    apply Z.mul_lt_mono_pos_r; lia. }
  split; [now split|]. split.
  - assert (X : K * G < a + 1); [|lia].
    apply mul_lt_cancel with (1000 * P1); [lia|].
    replace (K * G * (1000 * P1)) with (K * (1000 * (P1 * G))) by ring. lia.
  - assert (X : a < (K + 1) * G); [|lia].
    apply mul_lt_cancel with (1000 * P1); [lia|].
    replace ((K + 1) * G * (1000 * P1)) with ((K + 1) * (1000 * (P1 * G)))
      by ring.
    lia.
Qed.

(** Rounding up to [K + 1] asks for twice the number to be within a
    thousand units of the quotient below twice [1000 * (K + 1)]. *)
Lemma round_up_is_close (S P0 P1 G T N D1 a rho K : Z) :
  0 < P0 -> 0 < T ->
  N * P0 = S * T ->
  D1 * P0 = 1000 * T * P1 ->
  N = D1 * a + rho ->
  D1 <= 2 * rho ->
  a + 1 = (K + 1) * G ->
  2 * ((K + 1) * (1000 * (P1 * G))) - 1000 * P1 <= 2 * S.
Proof.
  intros HP0 HT Key KeyD DM Bad EQ.
  replace (2 * ((K + 1) * (1000 * (P1 * G))) - 1000 * P1)
    with ((2 * ((K + 1) * G) - 1) * (1000 * P1)) by ring.
  rewrite <- EQ.
  apply mul_le_cancel with T; [exact HT|].
  replace ((2 * (a + 1) - 1) * (1000 * P1) * T)
    with ((2 * a + 1) * (1000 * T * P1)) by ring.
  replace (2 * S * T) with (2 * (S * T)) by ring.
  rewrite <- KeyD, <- Key.
  replace ((2 * a + 1) * (D1 * P0)) with ((2 * (D1 * a) + D1) * P0) by ring.
  replace (2 * (N * P0)) with (2 * N * P0) by ring.
  apply Z.mul_le_mono_nonneg_r; lia.
Qed.

Lemma pow2_le (a b : Z) : 0 <= a <= b -> 2 ^ a <= 2 ^ b.
Proof. intros H. apply Z.pow_le_mono_r; lia. Qed.

(** A number of at least 500 has an exponent of at least -44. *)
Lemma large_exponent (m : positive) (e : Z) :
  -1074 <= e -> Zpos m < 2 ^ 53 ->
  1000 * scale <= 2 * scaled m e -> -44 <= e.
Proof.
  intros He Hm H.
  destruct (Z.le_gt_cases (-44) e) as [L|L]; [exact L|exfalso].
  unfold scaled, scale in H.
  assert (X : 2 ^ (e + 1074) <= 2 ^ 1029) by (apply pow2_le; lia).
  assert (Y : 0 < 2 ^ (e + 1074)) by (apply pow2_pos; lia).
  assert (Z1 : 2 * (2 ^ 53 * 2 ^ 1029) < 1000 * 2 ^ 1074) by reflexivity.
  assert (Z2 : Zpos m * 2 ^ (e + 1074) <= 2 ^ 53 * 2 ^ 1029).
  { apply Z.mul_le_mono_nonneg; lia. }
  lia.
Qed.

(** The quotient [f / 1000] of a binary64 number [f = m * 2^e] that is at
    least [1000 * K] and below [1000 * (K + 1)] is at least [K] and below
    [K + 1]: rounding the quotient to the nearest number does not reach
    [K + 1], because [f] is at least one unit in its last place below
    [1000 * (K + 1)], which is more than a thousand times half a unit in
    the last place of the quotient. *)
Lemma div_1000_bracket (m : positive) (e K : Z) :
  valid_binary (S754_finite false m e) = true ->
  0 <= K < 6000 ->
  K * (1000 * scale) <= scaled m e < (K + 1) * (1000 * scale) ->
  match SFdiv prec emax (S754_finite false m e)
          (S754_finite false thousand (-43)) with
  | S754_zero _ => K = 0
  | S754_finite false m' e' =>
      -1074 <= e' /\ K * scale <= scaled m' e' < (K + 1) * scale
  | _ => False
  end.
Proof.
  intros V HK [Lo Hi].
  assert (Hsix : scaled m e < 6000000 * scale).
  { pose proof scale_pos as SP.
    apply Z.lt_le_trans with ((K + 1) * (1000 * scale)); [exact Hi|].
    replace (6000000 * scale) with (6000 * (1000 * scale)) by ring.
    apply Z.mul_le_mono_nonneg_r; lia. }
  destruct (small_exponent m e V Hsix) as [[He1 He2] Hm].
  rewrite SFdiv_1000. cbv zeta.
  pose proof (digits2_bounds m) as [Dlo _].
  assert (Hd : 1 <= Zpos (digits2_pos m) <= 53).
  { split; [lia|].
    assert (L : 2 ^ (Zpos (digits2_pos m) - 1) < 2 ^ 53) by lia.
    apply Z.pow_lt_mono_r_iff in L; lia. }
  clear Dlo.
  set (e0 := Z.min (fexp prec emax (Zpos (digits2_pos m) + e - 10)) (e + 43)).
  assert (He0 : -1074 <= e0 /\ e0 <= e + 43 /\ e0 <= Z.max (e - 10) (-1074)).
  { unfold e0. rewrite fexp_eq. lia. }
  clearbody e0. clear Hd.
  set (s := e + 43 - e0). assert (Hs : 0 <= s) by (unfold s; lia).
  set (N := Zpos m * 2 ^ s).
  assert (Ps : 0 < 2 ^ s) by now apply pow2_pos.
  assert (HN : 0 <= N) by (unfold N; apply Z.mul_nonneg_nonneg; lia).
  destruct (round_aux_quotient N (Zpos thousand) e0 eq_refl HN)
    as [k1 [k2 [M [Hk1 [E1 [HM [Bad [Hk2 [E2 R]]]]]]]]].
  rewrite R. clear R. rewrite !fexp_eq in *.
  rewrite thousand_value in *.
  (* the powers of two at play *)
  set (S := scaled m e) in *.
  assert (ES : S = Zpos m * 2 ^ (e + 1074)) by reflexivity.
  set (P0 := 2 ^ (e0 + 1074)).
  assert (P0Pos : 0 < P0) by (apply pow2_pos; lia).
  assert (T43 : 0 < 2 ^ 43) by reflexivity.
  assert (Key : N * P0 = S * 2 ^ 43).
  { rewrite ES. unfold N, P0.
    replace (Zpos m * 2 ^ s * 2 ^ (e0 + 1074))
      with (Zpos m * (2 ^ s * 2 ^ (e0 + 1074))) by ring.
    replace (Zpos m * 2 ^ (e + 1074) * 2 ^ 43)
      with (Zpos m * (2 ^ (e + 1074) * 2 ^ 43)) by ring.
    rewrite <- !pow2_split by lia. do 2 f_equal. unfold s. lia. }
  (* the size of the quotient *)
  assert (Hq : 0 <= N / (1000 * 2 ^ 43) < 2 ^ (s + 1)).
  { split; [apply Z.div_pos; lia|].
    apply Z.div_lt_upper_bound; [lia|].
    rewrite (pow2_split s 1) by lia. change (2 ^ 1) with 2.
    unfold N. change (2 ^ 53) with (1024 * 2 ^ 43) in Hm.
    replace (1000 * 2 ^ 43 * (2 ^ s * 2)) with (2000 * 2 ^ 43 * 2 ^ s) by ring.
    apply Z.mul_lt_mono_pos_r; lia. }
  assert (Hdq : Zdigits2 (N / (1000 * 2 ^ 43)) <= s + 1)
    by (apply zdigits2_le; lia).
  assert (He1' : e0 + k1 <= Z.max (e - 9) (-1074)) by (unfold s in Hdq; lia).
  clear Hq Hdq E1.
  set (e1 := e0 + k1) in *.
  assert (Be1 : -1074 <= e1 <= 0) by (unfold e1; lia).
  set (Pk1 := 2 ^ k1) in *.
  assert (Pk1Pos : 0 < Pk1) by now apply pow2_pos.
  set (P1 := 2 ^ (e1 + 1074)).
  assert (EP1 : P1 = P0 * Pk1).
  { unfold P1, P0, Pk1, e1.
    replace (e0 + k1 + 1074) with (e0 + 1074 + k1) by lia.
    apply pow2_split; lia. }
  assert (P1Pos : 0 < P1) by (apply pow2_pos; lia).
  set (G := 2 ^ (- e1)).
  assert (GPos : 0 < G) by (apply pow2_pos; lia).
  assert (EG : P1 * G = scale).
  { unfold P1, G, scale. rewrite <- pow2_split by lia. f_equal. lia. }
  (* the quotient before rounding *)
  set (D1 := 1000 * 2 ^ 43 * Pk1) in *.
  assert (D1Pos : 0 < D1).
  { unfold D1. apply Z.mul_pos_pos; lia. }
  pose proof (Z.div_mod N D1 ltac:(lia)) as DM.
  pose proof (Z.mod_pos_bound N D1 D1Pos) as RB.
  set (a := N / D1) in *. set (rho := N mod D1) in *.
  assert (KeyD : D1 * P0 = 1000 * 2 ^ 43 * P1).
  { unfold D1. rewrite EP1. ring. }
  rewrite <- EG in Lo, Hi.
  destruct (quotient_bracket S P0 P1 G (2 ^ 43) N D1 a rho K
              P0Pos P1Pos GPos T43 Key KeyD DM RB (conj Lo Hi))
    as [[A1 A2] [B1 B2]].
  assert (B3 : M < (K + 1) * G).
  { destruct (Z.eq_dec M (a + 1)) as [EM|NM]; [|lia].
    destruct (Z.eq_dec (a + 1) ((K + 1) * G)) as [EQ|NE]; [exfalso|lia].
    specialize (Bad EM).
    pose proof (round_up_is_close S P0 P1 G (2 ^ 43) N D1 a rho K
                  P0Pos T43 Key KeyD DM Bad EQ) as C1.
    (* the number is large: its exponent is at least -44 *)
    assert (C3 : 1000 * scale <= 2 * S).
    { rewrite <- EG.
      assert (X : 1000 * P1 <= 1000 * (P1 * G)).
      { replace (1000 * P1) with (1000 * (P1 * 1)) by ring.
        apply Z.mul_le_mono_nonneg_l; [lia|].
        apply Z.mul_le_mono_nonneg_l; lia. }
      assert (Y : (K + 1) * (1000 * (P1 * G)) >= 1 * (1000 * (P1 * G))).
      { apply Z.le_ge. apply Z.mul_le_mono_nonneg_r; [|lia].
        apply Z.mul_nonneg_nonneg; [lia|]. apply Z.mul_nonneg_nonneg; lia. }
      lia. }
    assert (C4 : -44 <= e) by now apply large_exponent with m.
    (* so the unit of the quotient is 512 times smaller than its own *)
    assert (C6 : 512 * P1 <= 2 ^ (e + 1074)).
    { unfold P1. change 512 with (2 ^ 9). rewrite <- pow2_split by lia.
      apply pow2_le. lia. }
    (* while the number is a unit below [1000 * (K + 1)] *)
    assert (C7 : 2 ^ (e + 1074) * 2 ^ (- e) = P1 * G).
    { rewrite EG. unfold scale. rewrite <- pow2_split by lia.
      f_equal. lia. }
    assert (Pme : 0 < 2 ^ (- e)) by (apply pow2_pos; lia).
    assert (PePos : 0 < 2 ^ (e + 1074)) by (apply pow2_pos; lia).
    assert (C8 : Zpos m + 1 <= (K + 1) * 1000 * 2 ^ (- e)).
    { assert (X : Zpos m < (K + 1) * 1000 * 2 ^ (- e)); [|lia].
      apply mul_lt_cancel with (2 ^ (e + 1074)); [exact PePos|].
      rewrite <- ES.
      replace ((K + 1) * 1000 * 2 ^ (- e) * 2 ^ (e + 1074))
        with ((K + 1) * (1000 * (2 ^ (e + 1074) * 2 ^ (- e)))) by ring.
      now rewrite C7. }
    assert (C9 : S + 2 ^ (e + 1074) <= (K + 1) * (1000 * (P1 * G))).
    { rewrite <- C7, ES.
      replace (Zpos m * 2 ^ (e + 1074) + 2 ^ (e + 1074))
        with ((Zpos m + 1) * 2 ^ (e + 1074)) by ring.
      replace ((K + 1) * (1000 * (2 ^ (e + 1074) * 2 ^ (- e))))
        with ((K + 1) * 1000 * 2 ^ (- e) * 2 ^ (e + 1074)) by ring.
      apply Z.mul_le_mono_nonneg_r; lia. }
    lia. }
  (* the second shift *)
  assert (Ha0 : 0 <= a) by (unfold a; apply Z.div_pos; lia).
  assert (HM0 : 0 <= M) by lia.
  assert (HMd : Zdigits2 M <= 13 - e1).
  { apply zdigits2_le; [|lia]. split; [exact HM0|].
    replace (13 - e1) with (13 + - e1) by lia.
    rewrite pow2_split by lia. fold G. change (2 ^ 13) with 8192.
    apply Z.lt_le_trans with ((K + 1) * G); [exact B3|].
    apply Z.mul_le_mono_nonneg_r; lia. }
  set (e2 := e1 + k2) in *.
  assert (Be2 : -1074 <= e2 <= 0) by (unfold e2; lia).
  set (Pk2 := 2 ^ k2).
  assert (Pk2Pos : 0 < Pk2) by now apply pow2_pos.
  set (G2 := 2 ^ (- e2)).
  assert (G2Pos : 0 < G2) by (apply pow2_pos; lia).
  assert (EG2 : G = G2 * Pk2).
  { unfold G, Pk2, G2. rewrite <- pow2_split by lia. f_equal.
    unfold e2. lia. }
  assert (Hmm : K * G2 <= M / Pk2).
  { apply Z.div_le_lower_bound; [exact Pk2Pos|].
    replace (Pk2 * (K * G2)) with (K * (G2 * Pk2)) by ring.
    rewrite <- EG2. lia. }
  pose proof (Z.mul_div_le M Pk2 Pk2Pos) as Hdown.
  destruct (M / Pk2) as [|mm|mm] eqn:Emm.
  - assert (X : K * G2 = 0) by (apply Z.le_antisymm;
      [exact Hmm|apply Z.mul_nonneg_nonneg; lia]).
    apply Z.mul_eq_0 in X. lia.
  - change (emax - prec) with 971.
    destruct (Z.leb_spec e2 971) as [_|X]; [|lia].
    split; [lia|].
    unfold scaled. set (P2 := 2 ^ (e2 + 1074)).
    assert (EP2 : P2 = P1 * Pk2).
    { unfold P2, P1, Pk2, e2.
      replace (e1 + k2 + 1074) with (e1 + 1074 + k2) by lia.
      apply pow2_split; lia. }
    assert (P2Pos : 0 < P2) by (apply pow2_pos; lia).
    assert (ES2 : P2 * G2 = scale).
    { unfold P2, G2, scale. rewrite <- pow2_split by lia. f_equal. lia. }
    rewrite <- ES2. split.
    + replace (K * (P2 * G2)) with (K * G2 * P2) by ring.
      apply Z.mul_le_mono_nonneg_r; lia.
    + apply Z.le_lt_trans with (M * P1).
      * rewrite EP2.
        replace (Zpos mm * (P1 * Pk2)) with (Pk2 * Zpos mm * P1) by ring.
        apply Z.mul_le_mono_nonneg_r; lia.
      * rewrite ES2, <- EG.
        replace ((K + 1) * (P1 * G)) with ((K + 1) * G * P1) by ring.
        apply Z.mul_lt_mono_pos_r; lia.
  - assert (0 <= M / Pk2) by (apply Z.div_pos; lia). lia.
Qed.

Lemma six_million_spec :
  Prim2SF 6000000%float = S754_finite false six_million (-30).
Proof. reflexivity. Qed.

Lemma six_million_scaled : scaled six_million (-30) = 6000000 * scale.
Proof.
  unfold scaled, scale. change (Zpos six_million) with (6000000 * 2 ^ 30).
  rewrite <- Z.mul_assoc, <- pow2_split by lia. reflexivity.
Qed.

(** The whole thousands in a number [m * 2^e] with [e <= 0]. *)
Lemma floor_bracket (m : positive) (e : Z) :
  -1074 <= e <= 0 ->
  let K := Zpos m / (1000 * 2 ^ (- e)) in
  0 <= K
  /\ K * (1000 * scale) <= scaled m e < (K + 1) * (1000 * scale).
Proof.
  intros He K.
  assert (P : 0 < 2 ^ (- e)) by (apply pow2_pos; lia).
  assert (Q : 0 < 2 ^ (e + 1074)) by (apply pow2_pos; lia).
  assert (D : 0 < 1000 * 2 ^ (- e)) by lia.
  pose proof (Z.div_mod (Zpos m) (1000 * 2 ^ (- e)) ltac:(lia)) as DM.
  pose proof (Z.mod_pos_bound (Zpos m) (1000 * 2 ^ (- e)) D) as RB.
  fold K in DM.
  assert (ES : scale = 2 ^ (- e) * 2 ^ (e + 1074)).
  { unfold scale. rewrite <- pow2_split by lia. f_equal. lia. }
  split; [apply Z.div_pos; lia|].
  unfold scaled. rewrite ES. split.
  - replace (K * (1000 * (2 ^ (- e) * 2 ^ (e + 1074))))
      with (1000 * 2 ^ (- e) * K * 2 ^ (e + 1074)) by ring.
    apply Z.mul_le_mono_nonneg_r; lia.
  - replace ((K + 1) * (1000 * (2 ^ (- e) * 2 ^ (e + 1074))))
      with ((1000 * 2 ^ (- e) * K + 1000 * 2 ^ (- e)) * 2 ^ (e + 1074))
      by ring.
    apply Z.mul_lt_mono_pos_r; lia.
Qed.

(** [int(f / 1000)] is the whole thousands in [f] for a float that is
    not below zero and is below six million. *)
Lemma total_seconds_of_float (f : float) :
  PrimFloat.ltb f 0%float = false ->
  PrimFloat.ltb f 6000000%float = true ->
  total_seconds_of (Num.NFloat f) = inr (floor_seconds (Num.NFloat f))
  /\ 0 <= floor_seconds (Num.NFloat f) < 6000.
Proof.
  intros H0 H6. pose proof (Prim2SF_valid f) as V.
  rewrite FloatAxioms.ltb_spec in H0, H6.
  rewrite six_million_spec in H6.
  change (Prim2SF 0%float) with (S754_zero false) in H0.
  unfold total_seconds_of, Num.py_float, floor_seconds. cbn [bind ret].
  unfold Num.py_int. rewrite FloatAxioms.div_spec, thousand_spec.
  destruct (Prim2SF f) as [s|s| |s m e].
  - cbn. split; [reflexivity|lia].
  - now destruct s.
  - discriminate.
  - destruct s; [discriminate|].
    pose proof (compare_scaled m six_million e (-30) V eq_refl) as C.
    unfold SFltb in H6.
    destruct (SFcompare (S754_finite false m e)
                (S754_finite false six_million (-30))) as [[| |]|];
      try discriminate.
    rewrite six_million_scaled in C.
    destruct (small_exponent m e V C) as [He Hm].
    assert (F : (if 0 <=? e then Zpos m * 2 ^ e / 1000
                 else Zpos m / (1000 * 2 ^ (- e)))
                = Zpos m / (1000 * 2 ^ (- e))).
    { destruct (Z.leb_spec 0 e) as [X|X]; [|reflexivity]. lia. }
    rewrite F.
    destruct (floor_bracket m e ltac:(lia)) as [K0 KB].
    set (K := Zpos m / (1000 * 2 ^ (- e))) in *.
    assert (HK : K < 6000).
    { pose proof scale_pos as SP.
      assert (X : K * (1000 * scale) < 6000 * (1000 * scale)) by lia.
      apply mul_lt_cancel with (1000 * scale); lia. }
    split; [|lia].
    pose proof (div_1000_bracket m e K V (conj K0 HK) KB) as B.
    unfold SF64div.
    destruct (SFdiv prec emax (S754_finite false m e)
                (S754_finite false thousand (-43))) as [s'|s'| |s' m' e'];
      try contradiction.
    + clearbody K. rewrite B. reflexivity.
    + destruct s'; [contradiction|]. destruct B as [He' B].
      clearbody K. unfold ret. f_equal. now apply py_int_between.
Qed.

(** ** The shape of a formatted duration *)

Lemma total_seconds_of_number (n : Num.number) :
  Num.lt0 n = false ->
  below_100_minutes n = true ->
  total_seconds_of n = inr (floor_seconds n)
  /\ 0 <= floor_seconds n < 6000.
Proof.
  destruct n as [ms|f]; intros H0 H6.
  - simpl in H0, H6. apply Z.ltb_ge in H0. apply Z.ltb_lt in H6.
    split; [apply total_seconds_of_int; lia|]. simpl.
    split; [apply Z.div_pos; lia|apply Z.div_lt_upper_bound; lia].
  - now apply total_seconds_of_float.
Qed.

(** C5, amended: for an int or a float that is not below zero and is
    below 6,000,000 (a hundred minutes), the answer is two digits, a colon
    and two digits: the minutes [t // 60] and the seconds [t % 60] of
    [t], the whole thousands in the value (none is rounded up), which is
    below 6000. *)
Theorem duration_is_mmss_below_100_minutes :
  (forall (v : pyval) (n : Num.number),
      Num.as_number v = Some n ->
      Num.lt0 n = false ->
      below_100_minutes n = true ->
      0 <= floor_seconds n < 6000
      /\ format_songlength v
         = String (Dec.digit_char (floor_seconds n / 60 / 10))
             (String (Dec.digit_char (floor_seconds n / 60 mod 10))
                (String ":"
                   (String (Dec.digit_char (floor_seconds n mod 60 / 10))
                      (String (Dec.digit_char (floor_seconds n mod 60 mod 10))
                         ""))))
      /\ is_mmss (format_songlength v) = true)
  /\ format_songlength (PInt 65000) = "01:05"
  /\ format_songlength (PInt 0) = "00:00"
  /\ format_songlength (PInt 3599000) = "59:59"
  /\ format_songlength (PFloat 65999.75) = "01:05"
  /\ format_songlength (PFloat 5999999.5) = "99:59".
Proof.
  split.
  - intros v n Hn H0 H6.
    destruct (total_seconds_of_number n H0 H6) as [E B].
    split; [exact B|].
    assert (F : format_songlength v = mmss (floor_seconds n)).
    { unfold format_songlength. now rewrite Hn, H0, E. }
    rewrite F. now apply mmss_below_6000.
  - repeat split; vm_compute; reflexivity.
Qed.

(** C5, as stated, fails: at a hundred minutes the minutes take three
    digits, and an infinite float gets "Error". *)
Lemma hundred_minutes_is_not_mmss :
  format_songlength (PInt 6000000) = "100:00"
  /\ is_mmss (format_songlength (PInt 6000000)) = false
  /\ format_songlength (PFloat PrimFloat.infinity) = "Error".
Proof. repeat split; vm_compute; reflexivity. Qed.

(** ** Runs *)

Lemma loaded_rows_are_guitar_hero_3_run :
  @load_song_data Sample.runtime (Sample.one_song (PStr "One"))
  = (Some (Sample.table_of (PStr "One")), Sample.missing_three)
  /\ Frame.mem "Playlist" (columns (Sample.table_of (PStr "One"))) = true
  /\ Forall (fun row =>
               field (Sample.table_of (PStr "One")) "Playlist" row
               = PStr "guitar hero 3")
       (rows (Sample.table_of (PStr "One"))).
Proof.
  split; [vm_compute; reflexivity|].
  apply (proj1 (@loaded_rows_are_guitar_hero_3 Sample.runtime)
           (Sample.one_song (PStr "One")) _ Sample.missing_three).
  vm_compute; reflexivity.
Defined.

Lemma non_list_is_rejected_run :
  @load_song_data Sample.runtime (Json (PDict [("a", PInt 1)]))
  = (None, [NotAList])
  /\ level_of NotAList = Error
  /\ forall search_name search_artist : string,
       @browse Sample.runtime (Json (PDict [("a", PInt 1)]))
         search_name search_artist
       = inr (None, [NotAList]).
Proof.
  apply (@non_list_is_rejected Sample.runtime (PDict [("a", PInt 1)])).
  intros l. discriminate.
Defined.



Lemma duration_is_mmss_below_100_minutes_run :
  Num.as_number (PFloat 65999.75) = Some (Num.NFloat 65999.75)
  /\ Num.lt0 (Num.NFloat 65999.75) = false
  /\ below_100_minutes (Num.NFloat 65999.75) = true
  /\ format_songlength (PFloat 65999.75)
     = String (Dec.digit_char (floor_seconds (Num.NFloat 65999.75) / 60 / 10))
         (String
            (Dec.digit_char (floor_seconds (Num.NFloat 65999.75) / 60 mod 10))
            (String ":"
               (String
                  (Dec.digit_char
                     (floor_seconds (Num.NFloat 65999.75) mod 60 / 10))
                  (String
                     (Dec.digit_char
                        (floor_seconds (Num.NFloat 65999.75) mod 60 mod 10))
                     ""))))
  /\ is_mmss (format_songlength (PFloat 65999.75)) = true.
Proof.
  split; [reflexivity|]. split; [reflexivity|]. split; [reflexivity|].
  apply (proj1 duration_is_mmss_below_100_minutes (PFloat 65999.75)
           (Num.NFloat 65999.75) eq_refl eq_refl eq_refl).
Defined.

Lemma dot_query_keeps_names_without_dot_run :
  @load_song_data Sample.runtime (Sample.one_song (PStr "abc"))
  = (Some (Sample.table_of (PStr "abc")), Sample.missing_three)
  /\ exists df' : DataFrame,
       @apply_filters Sample.runtime (Sample.table_of (PStr "abc")) "." ""
       = inr (df', [])
       /\ In [PStr "abc"; PStr "guitar hero 3"; PNone; PNone; PNone]
            (rows df').
Proof.
  assert (L : @load_song_data Sample.runtime (Sample.one_song (PStr "abc"))
              = (Some (Sample.table_of (PStr "abc")), Sample.missing_three))
    by (vm_compute; reflexivity).
  split; [exact L|].
  apply (@dot_query_keeps_names_without_dot Sample.runtime _ _ _ _ "a" "bc" L).
  - simpl. now left.
  - reflexivity.
  - reflexivity.
  - discriminate.
Defined.

Lemma open_paren_query_raises_run :
  @load_song_data Sample.runtime (Sample.one_song (PStr "One"))
  = (Some (Sample.table_of (PStr "One")), Sample.missing_three)
  /\ @apply_filters Sample.runtime (Sample.table_of (PStr "One")) "(" ""
     = inl ReError
  /\ @browse Sample.runtime (Sample.one_song (PStr "One")) "(" ""
     = inl ReError.
Proof.
  assert (L : @load_song_data Sample.runtime (Sample.one_song (PStr "One"))
              = (Some (Sample.table_of (PStr "One")), Sample.missing_three))
    by (vm_compute; reflexivity).
  split; [exact L|].
  destruct (@open_paren_query_raises Sample.runtime _ _ _ "" L) as [E B].
  split; [exact E|]. apply B. reflexivity.
Defined.

Lemma null_name_matches_none_run :
  @load_song_data Sample.runtime (Sample.one_song PNone)
  = (Some (Sample.table_of PNone), Sample.missing_three)
  /\ exists df' : DataFrame,
       @apply_filters Sample.runtime (Sample.table_of PNone) "none" ""
       = inr (df', [])
       /\ In [PNone; PStr "guitar hero 3"; PNone; PNone; PNone] (rows df').
Proof.
  assert (L : @load_song_data Sample.runtime (Sample.one_song PNone)
              = (Some (Sample.table_of PNone), Sample.missing_three))
    by (vm_compute; reflexivity).
  split; [exact L|].
  apply (@null_name_matches_none Sample.runtime _ _ _ _ L).
  - simpl. now left.
  - reflexivity.
Defined.

Lemma nan_prefix_is_dropped_run :
  exists row' : list pyval,
    nth_error (rows (fst (@process_playlist Sample.runtime Sample.raw_table)))
      0
    = Some row'
    /\ Frame.notna
         (field (fst (@process_playlist Sample.runtime Sample.raw_table))
            "Playlist" row') = false
    /\ ~ In row'
         (rows (keep_target
                  (fst (@process_playlist Sample.runtime Sample.raw_table)))).
Proof.
  apply (@nan_prefix_is_dropped Sample.runtime Sample.raw_table
           [PStr "One"; PStr "nan\x"] 0).
  - repeat constructor.
  - reflexivity.
  - reflexivity.
  - reflexivity.
Defined.

(** C10, as stated, fails: in a column that is processed, a record whose
    playlist is an explicit null gets the text "None" as its tag, which is
    not the null that a "nan" prefix and a missing key get. *)
Lemma explicit_null_is_tagged_none :
  Frame.of_records Sample.null_playlists = inr Sample.null_table
  /\ Frame.column
       (fst (@process_playlist Sample.runtime
               (fst (@require_cols Sample.runtime Sample.null_table))))
       "Playlist"
     = [PStr "None"; PNone; PNone; PStr "guitar hero 3"]
  /\ @playlist_tag Sample.runtime PNone <> PNone.
Proof.
  split; [vm_compute; reflexivity|].
  split; [vm_compute; reflexivity|discriminate].
Qed.
